(** * burma-static: route generation and request dispatch

    A shallow embedding of [src/index.ts].  Paths are POSIX paths (the source
    itself splits directories on the forward slash), strings are
    [String.string], file contents are byte lists, the process-wide [store]
    and the per-run [mimeCache] are finite maps.  The collaborators of route
    generation (the working directory, the glob expansion, [statSync], the
    MIME resolver) are fields of an environment record; the handler reads
    files from a disk given with each request.  [handle] is the handler run
    without interruption; [start] and [resume] are its two halves around the
    [await], and [react] runs calls that overlap. *)

From stdpp Require Import gmap strings list.
From Stdlib Require Import Strings.Ascii Strings.Byte Numbers.DecimalString.

(** ** JavaScript string and array primitives used by the source *)

(** [s.split(sep)] for a one-character separator: never the empty array. *)
Fixpoint String_split (sep : ascii) (s : string) : list string :=
  match s with
  | EmptyString => [EmptyString]
  | String c s' =>
      if Ascii.eqb c sep then EmptyString :: String_split sep s'
      else match String_split sep s' with
           | [] => [String c EmptyString]
           | seg :: segs => String c seg :: segs
           end
  end.

(** [xs.join(sep)]. *)
Fixpoint Array_join (sep : string) (xs : list string) : string :=
  match xs with
  | [] => EmptyString
  | [x] => x
  | x :: rest => x +:+ sep +:+ Array_join sep rest
  end.

(** [[...new Set(xs)]]: insertion order, the first occurrence is kept. *)
Definition Set_add (acc : list string) (x : string) : list string :=
  if bool_decide (x ∈ acc) then acc else acc ++ [x].

Definition Set_from (xs : list string) : list string :=
  foldl Set_add [] xs.

(** [xs.some(p)] and [set.has(x)]. *)
Definition Array_some {A} (p : A → bool) (xs : list A) : bool := existsb p xs.
Definition Set_has (s : list string) (x : string) : bool := bool_decide (x ∈ s).

Definition starts_with_slash (s : string) : bool :=
  match s with
  | String c _ => Ascii.eqb c "/"
  | EmptyString => false
  end.

Fixpoint ends_with_slash (s : string) : bool :=
  match s with
  | EmptyString => false
  | String c EmptyString => Ascii.eqb c "/"
  | String _ s' => ends_with_slash s'
  end.

(** ** Node's [path] module, POSIX flavour, at the level of path segments *)
Module path.

Definition sep : ascii := "/".

(** [normalizeString]: the segment stack is kept reversed in [acc]. Empty
    and single-dot segments vanish, a double dot pops the last real
    segment or, above the root of a relative path, is kept. *)
Fixpoint normalizeSegs (allowAboveRoot : bool) (acc segs : list string)
  : list string :=
  match segs with
  | [] => rev acc
  | s :: rest =>
      if String.eqb s "" || String.eqb s "." then
        normalizeSegs allowAboveRoot acc rest
      else if String.eqb s ".." then
        match acc with
        | top :: acc' =>
            if String.eqb top ".." then
              normalizeSegs allowAboveRoot
                (if allowAboveRoot then s :: acc else acc) rest
            else normalizeSegs allowAboveRoot acc' rest
        | [] =>
            normalizeSegs allowAboveRoot
              (if allowAboveRoot then [s] else []) rest
        end
      else normalizeSegs allowAboveRoot (s :: acc) rest
  end.

Definition normalize (p : string) : string :=
  if String.eqb p "" then "."
  else
    let isAbsolute := starts_with_slash p in
    let trailingSeparator := ends_with_slash p in
    let body :=
      Array_join "/" (normalizeSegs (negb isAbsolute) [] (String_split sep p)) in
    if String.eqb body "" then
      if isAbsolute then "/" else if trailingSeparator then "./" else "."
    else
      let body := if trailingSeparator then body +:+ "/" else body in
      if isAbsolute then "/" +:+ body else body.

(** [path.join(...args)]: empty arguments are skipped. *)
Definition join (args : list string) : string :=
  match List.filter (fun a => negb (String.eqb a "")) args with
  | [] => "."
  | parts => normalize (Array_join "/" parts)
  end.

(** [path.resolve] of one path against the working directory, as the
    segments below the root. *)
Definition resolveSegs (cwd p : string) : list string :=
  normalizeSegs false []
    (String_split sep (if starts_with_slash p then p else cwd +:+ "/" +:+ p)).

Fixpoint dropCommon (a b : list string) : list string * list string :=
  match a, b with
  | x :: a', y :: b' => if String.eqb x y then dropCommon a' b' else (a, b)
  | _, _ => (a, b)
  end.

(** [path.relative(from, to)]: one double dot per segment of [from] left
    after the common prefix, then what is left of [to]. *)
Definition relative (cwd from to : string) : string :=
  let '(up, down) := dropCommon (resolveSegs cwd from) (resolveSegs cwd to) in
  Array_join "/" (List.map (fun _ => "..") up ++ down).

Record ParsedPath := {
  root : string;
  dir : string;
  base : string;
  ext : string;
  name : string;
}.

(** The suffix of [s] that starts at its last dot, if it has one. *)
Fixpoint lastDot (s : string) : option string :=
  match s with
  | EmptyString => None
  | String c s' =>
      match lastDot s' with
      | Some e => Some e
      | None => if Ascii.eqb c "." then Some s else None
      end
  end.

(** The extension: from the last dot of the base name, unless that dot is
    the first character or the base name is the double dot. *)
Definition extOf (b : string) : string :=
  if String.eqb b ".." then ""
  else match b with
       | EmptyString => ""
       | String _ b' => default "" (lastDot b')
       end.

Fixpoint dropTrailingEmpty (segs : list string) : list string :=
  match segs with
  | [] => []
  | s :: rest =>
      match dropTrailingEmpty rest with
      | [] => if String.eqb s "" then [] else [s]
      | rest' => s :: rest'
      end
  end.

(** [path.parse(p)]. *)
Definition parse (p : string) : ParsedPath :=
  let isAbsolute := starts_with_slash p in
  let segs := dropTrailingEmpty (String_split sep p) in
  let b := List.last segs "" in
  let front := removelast segs in
  let e := extOf b in
  {| root := if isAbsolute then "/" else "";
     dir := match front with
            | [] => if isAbsolute then "/" else ""
            | _ => let d := Array_join "/" front in
                   if String.eqb d "" then "/" else d
            end;
     base := b;
     ext := e;
     name := String.substring 0 (String.length b - String.length e) b |}.

End path.

(** ** Data model of [index.ts] *)

Record GenerateRoutes := {
  rootPath : option string;
  staticDir : option string;
  fileExt : option (list string);
  warning : option bool;
  ignore : option (list string);
}.

Record RouteObject := {
  file : string;
  url : string;
  mime : string;
  typeofMime : string;
  base : string;
}.

Abbreviation Buffer := (list byte).

(** What the resolver of [@burmajs/mime] returns: both fields may be
    undefined. *)
Record MimeType := {
  type : option string;
  typeOf : option string;
}.

(** The collaborators of route generation: [process.cwd()],
    [fs.globSync], [fs.statSync(p).isFile()] and the MIME resolver. *)
Record Env := {
  cwd : string;
  globSync : string → list string;
  statIsFile : string → bool;
  mimeType : string → MimeType;
}.

Definition dq : string := String (ascii_of_nat 34) EmptyString.

Definition html404 : string :=
  "
<!DOCTYPE html>
<html lang=" +:+ dq +:+
  "en" +:+ dq +:+
  ">
  <head>
    <meta charset=" +:+ dq +:+
  "UTF-8" +:+ dq +:+
  " />
    <meta name=" +:+ dq +:+
  "viewport" +:+ dq +:+
  " content=" +:+ dq +:+
  "width=device-width, initial-scale=1.0" +:+ dq +:+
  " />
    <title>404</title>
    <style>
      main {
        position: absolute;
        top: 50%;
        left: 50%;
        transform: translate(-50%, -50%);
        color: #888;
        text-align: center;
      }
      a {
        text-decoration: none;
        padding: 7px;
        border: 1px solid #888;
        color: #888;
      }
    </style>
  </head>
  <body>
    <main>
      <h1>404 Not Found</h1>
      <br />
      <a href=" +:+ dq +:+
  "/" +:+ dq +:+
  ">Home</a>
    </main>
  </body>
</html>

".

(** ** File collection *)

(** The removal of the process-wide warning listeners is the only effect of
    [warning]; it does not touch the result. *)
Definition _getFiles (env : Env) (pattern : string) (warning : bool)
  : list string :=
  globSync env pattern.

Definition isFile (env : Env) (p : string) : bool := statIsFile env p.

Definition createPattern (dirtpath : string) (ext : option (list string))
  : string :=
  match ext with
  | None => dirtpath +:+ "/**/*"
  | Some ext =>
      if Nat.eqb (length ext) 1 then
        let ex := Array_join "," ext in
        dirtpath +:+ "/**/*." +:+ ex
      else
        let ex := "{" +:+ Array_join "," ext +:+ "}" in
        dirtpath +:+ "/**/*." +:+ ex
  end.

Definition defaultIgnores : list string :=
  ["node_modules"; "tsconfig.json"; "README.md"; "package.json";
   "package-lock.json"; "LICENSE"].

Definition createIgnores (ignore : option (list string)) : list string :=
  let ign := defaultIgnores in
  let igns :=
    match ignore with
    | Some ignore => ignore ++ ign
    | None => ign
    end in
  Set_from igns.

Definition filterFiles (env : Env) (files : list string) (ignsSet : list string)
  : list string :=
  let fls :=
    List.filter
      (fun file =>
         let sgs := String_split path.sep file in
         negb (Array_some (fun sg => Set_has ignsSet sg) sgs))
      files in
  List.filter (isFile env) fls.

Definition getFiles (env : Env) (staticDir : option string)
    (fileExt : option (list string)) (warning : bool)
    (ignore : option (list string)) : list string :=
  let staticDir := default "." staticDir in
  let dirPath := path.join [cwd env; staticDir] in
  let pattern := createPattern dirPath fileExt in
  let _fls := _getFiles env pattern warning in
  let ignsSet := Set_from (createIgnores ignore) in
  filterFiles env _fls ignsSet.

(** ** Route generation *)

(** The seven booleans computed for each file. *)
Record Classification := {
  isLogin : bool;
  mainIndex : bool;
  subIndex : bool;
  mainHtmls : bool;
  subHtmls : bool;
  mainFiles : bool;
  subFiles : bool;
}.

Definition classify (static_dir : string) (parsed : path.ParsedPath)
  : Classification :=
  let base := path.base parsed in
  let ext := path.ext parsed in
  let _dir := path.dir parsed in
  {| isLogin := String.eqb base "login.html";
     mainIndex := String.eqb _dir static_dir && String.eqb base "index.html";
     subIndex := negb (String.eqb _dir static_dir) && String.eqb base "index.html";
     mainHtmls := String.eqb _dir static_dir && String.eqb ext ".html";
     subHtmls := negb (String.eqb _dir static_dir) && String.eqb ext ".html";
     mainFiles := String.eqb _dir static_dir && negb (String.eqb ext ".html");
     subFiles := negb (String.eqb _dir static_dir) && negb (String.eqb ext ".html") |}.

(** The branch of the if/else chain that assigns [url]. *)
Inductive Branch :=
  | MainIndex | SubIndex | MainHtmls | SubHtmls | MainFiles | SubFiles.

(** The chain itself: [None] is the fall-through past the last [else if],
    which leaves [url] at its initial empty string. *)
Definition fired (c : Classification) : option Branch :=
  if mainIndex c then Some MainIndex
  else if subIndex c then Some SubIndex
  else if mainHtmls c then Some MainHtmls
  else if subHtmls c then Some SubHtmls
  else if mainFiles c then Some MainFiles
  else if subFiles c then Some SubFiles
  else None.

Definition urlOf (rootpath _dir_name : string) (parsed : path.ParsedPath)
    (b : option Branch) : string :=
  match b with
  | Some MainIndex => rootpath
  | Some SubIndex => path.join [rootpath; _dir_name]
  | Some MainHtmls => path.join [rootpath; path.name parsed]
  | Some SubHtmls => path.join [rootpath; _dir_name; path.name parsed]
  | Some MainFiles => path.join [rootpath; path.base parsed]
  | Some SubFiles => path.join [rootpath; _dir_name; path.base parsed]
  | None => ""
  end.

(** The reducer's accumulator together with the memo table it closes over
    and the calls made to the resolver so far, oldest first. *)
Record Run := {
  routes : list RouteObject;
  mimeCache : gmap string MimeType;
  resolved : list string;
}.

(** [mimeCache[ext] ??= mimeType(ext)]: the resolver runs only when the
    table has no entry for [ext]. *)
Definition memoMime (env : Env) (ext : string) (r : Run)
  : MimeType * gmap string MimeType * list string :=
  match mimeCache r !! ext with
  | Some m => (m, mimeCache r, resolved r)
  | None =>
      let m := mimeType env ext in
      (m, <[ext := m]> (mimeCache r), resolved r ++ [ext])
  end.

Definition rootpathOf (options : option GenerateRoutes) : string :=
  match options ≫= rootPath with
  | Some p => if String.eqb p "" then "/" else p
  | None => "/"
  end.

(** The callback of [files.reduce]. *)
Definition reducer (env : Env) (rootpath static_dir : string)
    (acc : Run) (file : string) : Run :=
  let relative := path.relative (cwd env) (cwd env) file in
  let parsed := path.parse relative in
  let ext := path.ext parsed in
  let base := path.base parsed in
  let _dir := path.dir parsed in
  let _dir_name := Array_join "/" (drop 1 (String_split "/" _dir)) in
  let flags := classify static_dir parsed in
  let '(_mimeType, cache, calls) := memoMime env ext acc in
  let url := urlOf rootpath _dir_name parsed (fired flags) in
  let route :=
    {| file := file;
       mime := default "" (type _mimeType);
       typeofMime := default "" (typeOf _mimeType);
       url := url;
       base := base |} in
  {| routes := routes acc ++ [route]; mimeCache := cache; resolved := calls |}.

Definition generateRoutesRun (env : Env) (options : option GenerateRoutes)
  : Run :=
  let warn := default false (options ≫= warning) in
  let rootpath := rootpathOf options in
  let files :=
    getFiles env (options ≫= staticDir) (options ≫= fileExt) warn
      (options ≫= ignore) in
  let static_dir := default "." (options ≫= staticDir) in
  foldl (reducer env rootpath static_dir)
    {| routes := []; mimeCache := ∅; resolved := [] |} files.

Definition generateRoutes (env : Env) (options : option GenerateRoutes)
  : list RouteObject :=
  routes (generateRoutesRun env options).

(** The extension and the url the reducer computes for a collected file. *)
Definition extOfFile (env : Env) (file : string) : string :=
  path.ext (path.parse (path.relative (cwd env) (cwd env) file)).

Definition urlFor (env : Env) (rootpath static_dir file : string) : string :=
  let parsed := path.parse (path.relative (cwd env) (cwd env) file) in
  let _dir_name := Array_join "/" (drop 1 (String_split "/" (path.dir parsed))) in
  urlOf rootpath _dir_name parsed (fired (classify static_dir parsed)).

(** What holds of the memo table and of the resolver calls throughout a
    run: no extension was resolved twice, the resolved extensions are the
    keys of the table and the extensions of the routes built so far, and the
    table holds what the resolver returned; each route carries the resolver's
    answer for its extension, with the empty string for an undefined field. *)
Record RunInv (env : Env) (r : Run) : Prop := {
  inv_once : NoDup (resolved r);
  inv_keys : ∀ e, e ∈ resolved r ↔ is_Some (mimeCache r !! e);
  inv_memo : ∀ e m, mimeCache r !! e = Some m → m = mimeType env e;
  inv_exts : ∀ e, e ∈ resolved r ↔ ∃ x, x ∈ routes r ∧ extOfFile env (file x) = e;
  inv_mime : ∀ x, x ∈ routes r →
    mime x = default "" (type (mimeType env (extOfFile env (file x)))) ∧
    typeofMime x = default "" (typeOf (mimeType env (extOfFile env (file x))));
}.

(** ** Request handling *)

(** The two fields of [IncomingMessage] the handler reads. *)
Module request.
Record t := { method : string; url : string }.
End request.

(** The part of [ServerResponse] the handler writes: the status code and
    the body the response was ended with (directly or by the piped stream),
    [None] while nothing was sent. *)
Module response.
Record t := { statusCode : nat; sent : option Buffer }.
Definition fresh : t := {| statusCode := 200; sent := None |}.
End response.

(** What the handlers of one process share: the [store] singleton imported
    at module level, a key-value store whose [get] answers undefined for a
    key never [set], and the console. *)
Record Process := {
  store : gmap string Buffer;
  stdout : list string;
}.

Definition boot : Process := {| store := ∅; stdout := [] |}.

(** The files readable at the time of a request: [None] where the read
    fails. *)
Definition Disk := string → option Buffer.

Definition Buffer_from (s : string) : Buffer := String.list_byte_of_string s.

Definition String_of_number (n : nat) : string :=
  NilZero.string_of_uint (Nat.to_uint n).

Definition sendFile (disk : Disk) (file : string) (res : response.t)
  : response.t :=
  {| response.statusCode := 200; response.sent := disk file |}.

Definition send404 (html : string) (res : response.t) : response.t :=
  {| response.statusCode := 404; response.sent := Some (Buffer_from html) |}.

Definition sendContent (content : Buffer) (res : response.t) : response.t :=
  let cont := content in
  {| response.statusCode := 200; response.sent := Some cont |}.

Definition console_log (line : string) (p : Process) : Process :=
  {| store := store p; stdout := stdout p ++ [line] |}.

Definition store_set (key : string) (value : Buffer) (p : Process) : Process :=
  {| store := <[key := value]> (store p); stdout := stdout p |}.

(** How the promise returned by the handler settles. *)
Inductive Settled := Fulfilled | Rejected.

(** One call of the handler, run to completion: the route table the closure
    holds afterwards, the response, the process state and the promise. *)
Record Handled := {
  settled : Settled;
  routeObj : list RouteObject;
  res : response.t;
  proc : Process;
}.

(** [routes.find((i) => i.url === request.url)]. *)
Definition findRoute (routes : list RouteObject) (target : string)
  : option RouteObject :=
  List.find (fun i => String.eqb (url i) target) routes.

Definition handle (routeObj : list RouteObject) (disk : Disk)
    (req : request.t) (response : response.t) (p : Process) : Handled :=
  match findRoute routeObj (request.url req) with
  | None =>
      {| settled := Fulfilled; routeObj := routeObj;
         res := send404 html404 response; proc := p |}
  | Some found =>
      match store p !! url found with
      | Some cached =>
          let response := sendContent cached response in
          let line :=
            request.method req +:+ " " +:+ request.url req +:+ " " +:+
            String_of_number (response.statusCode response) +:+ " (from cache)" in
          {| settled := Fulfilled; routeObj := routeObj;
             res := response; proc := console_log line p |}
      | None =>
          match disk (file found) with
          | None =>
              {| settled := Rejected; routeObj := routeObj;
                 res := response; proc := p |}
          | Some content =>
              let p := store_set (url found) content p in
              let response := sendFile disk (file found) response in
              let line :=
                request.method req +:+ " " +:+ request.url req +:+ " " +:+
                String_of_number (response.statusCode response) in
              {| settled := Fulfilled; routeObj := routeObj;
                 res := response; proc := console_log line p |}
          end
      end
  end.

(** [burmaStatic(options)]: the route table is generated once and the
    returned handler closes over it. *)
Definition burmaStatic (env : Env) (options : GenerateRoutes)
  : Disk → request.t → response.t → Process → Handled :=
  let routeObj :=
    generateRoutes env
      (Some {| staticDir := staticDir options;
               rootPath := rootPath options;
               warning := warning options;
               ignore := ignore options;
               fileExt := fileExt options |}) in
  handle routeObj.

(** ** The handler around its one suspension *)

(** Where the handler stands when it first yields: finished (no route, or
    a cache hit), or waiting for [fs.promises.readFile]. *)
Inductive Started :=
  | Finished (h : Handled)
  | Reading (found : RouteObject).

(** The handler up to the [await]. *)
Definition start (routeObj : list RouteObject) (req : request.t)
    (response : response.t) (p : Process) : Started :=
  match findRoute routeObj (request.url req) with
  | None =>
      Finished {| settled := Fulfilled; routeObj := routeObj;
                  res := send404 html404 response; proc := p |}
  | Some found =>
      match store p !! url found with
      | Some cached =>
          let response := sendContent cached response in
          let line :=
            request.method req +:+ " " +:+ request.url req +:+ " " +:+
            String_of_number (response.statusCode response) +:+ " (from cache)" in
          Finished {| settled := Fulfilled; routeObj := routeObj;
                      res := response; proc := console_log line p |}
      | None => Reading found
      end
  end.

(** The handler after the [await], in the process state of that moment:
    [read] is what [readFile] settled with, [None] for a rejection, and
    [disk] is what the stream opened by [sendFile] reads. *)
Definition resume (routeObj : list RouteObject) (disk : Disk)
    (req : request.t) (response : response.t) (found : RouteObject)
    (read : option Buffer) (p : Process) : Handled :=
  match read with
  | None =>
      {| settled := Rejected; routeObj := routeObj; res := response; proc := p |}
  | Some content =>
      let p := store_set (url found) content p in
      let response := sendFile disk (file found) response in
      let line :=
        request.method req +:+ " " +:+ request.url req +:+ " " +:+
        String_of_number (response.statusCode response) in
      {| settled := Fulfilled; routeObj := routeObj;
         res := response; proc := console_log line p |}
  end.

(** ** Requests that overlap *)

(** A call of a handler that is waiting for its read. *)
Record Waiting := {
  w_routes : list RouteObject;
  w_req : request.t;
  w_res : response.t;
  w_found : RouteObject;
}.

(** What the event loop does next: a handler (given by its route table) is
    called with a request and a fresh response, or the read of the [i]-th
    waiting call settles, [read] being the disk at the time of the read and
    [stream] the disk the response stream reads. *)
Inductive Event :=
  | Call (routeObj : list RouteObject) (req : request.t)
  | Settle (i : nat) (read stream : Disk).

(** The process, the calls in flight and the calls completed so far,
    oldest first. *)
Record Loop := {
  world : Process;
  waiting : list Waiting;
  finished : list Handled;
}.

Definition bootLoop : Loop := {| world := boot; waiting := []; finished := [] |}.

Definition react (l : Loop) (e : Event) : Loop :=
  match e with
  | Call routeObj req =>
      match start routeObj req response.fresh (world l) with
      | Finished h =>
          {| world := proc h; waiting := waiting l;
             finished := finished l ++ [h] |}
      | Reading found =>
          {| world := world l;
             waiting := waiting l ++
               [{| w_routes := routeObj; w_req := req;
                   w_res := response.fresh; w_found := found |}];
             finished := finished l |}
      end
  | Settle i read stream =>
      match waiting l !! i with
      | None => l
      | Some w =>
          let h := resume (w_routes w) stream (w_req w) (w_res w) (w_found w)
                     (read (file (w_found w))) (world l) in
          {| world := proc h; waiting := delete i (waiting l);
             finished := finished l ++ [h] |}
      end
  end.

Definition runLoop (es : list Event) (l : Loop) : Loop := foldl react l es.

(** An event that leaves the content cached for the url of [found] as it
    is: a call of a handler that routes this url to the same file, or a
    read that finds this file with the content [content]. *)
Definition sameFile (found : RouteObject) (content : Buffer) (e : Event)
  : Prop :=
  match e with
  | Call routeObj _ =>
      ∀ f, findRoute routeObj (url found) = Some f → file f = file found
  | Settle _ read _ => ∀ c, read (file found) = Some c → c = content
  end.

(** The calls in flight for the url of [found] wait for its file. *)
Definition waitForFile (found : RouteObject) (l : Loop) : Prop :=
  Forall (λ w, url (w_found w) = url found → file (w_found w) = file found)
    (waiting l).

(** ** A sample deployment, for the concrete runs below *)

Definition noOptions : GenerateRoutes :=
  {| rootPath := None; staticDir := None; fileExt := None;
     warning := None; ignore := None |}.

Definition inDir (d : string) : GenerateRoutes :=
  {| rootPath := None; staticDir := Some d; fileExt := None;
     warning := None; ignore := None |}.

(** The tree below the working directory [/srv]: the glob expansion lists
    directories as well as files. *)
Definition sampleGlob (pattern : string) : list string :=
  if String.eqb pattern "/srv/**/*" then
    ["/srv/index.html"; "/srv/blog"; "/srv/blog/index.html"; "/srv/about.html";
     "/srv/logo.png"; "/srv/assets"; "/srv/assets/logo.png";
     "/srv/node_modules/x.js"; "/srv/package.json"]
  else if String.eqb pattern "/srv/public/**/*" then
    ["/srv/public/index.html"; "/srv/public/blog";
     "/srv/public/blog/index.html"; "/srv/public/about.html";
     "/srv/public/logo.png"; "/srv/public/assets";
     "/srv/public/assets/logo.png"]
  else if String.eqb pattern "/srv/site_a/**/*" then ["/srv/site_a/index.html"]
  else if String.eqb pattern "/srv/site_b/**/*" then
    ["/srv/site_b/index.html"; "/srv/site_b/data.bin"]
  else [].

Definition sampleDirs : list string :=
  ["/srv/blog"; "/srv/assets"; "/srv/public/blog"; "/srv/public/assets"].

Definition sampleMime (ext : string) : MimeType :=
  if String.eqb ext ".html" then
    {| type := Some "text/html"; typeOf := Some "text" |}
  else if String.eqb ext ".png" then
    {| type := Some "image/png"; typeOf := Some "image" |}
  else {| type := None; typeOf := None |}.

Definition sampleEnv : Env :=
  {| cwd := "/srv";
     globSync := sampleGlob;
     statIsFile := fun p => negb (bool_decide (p ∈ sampleDirs));
     mimeType := sampleMime |}.

Definition sampleDisk : Disk :=
  fun f =>
    if String.eqb f "/srv/site_a/index.html" then Some (Buffer_from "site A")
    else if String.eqb f "/srv/site_b/index.html" then Some (Buffer_from "site B")
    else if String.eqb f "/srv/about.html" then Some (Buffer_from "about")
    else None.

Definition GET (target : string) : request.t :=
  {| request.method := "GET"; request.url := target |}.

Definition sampleRoutes : list RouteObject :=
  generateRoutes sampleEnv (Some noOptions).

Definition aboutRoute : RouteObject :=
  {| file := "/srv/about.html"; url := "/about"; mime := "text/html";
     typeofMime := "text"; base := "about.html" |}.

(** ** Vocabulary for statements about collected files *)

(** A name of a file or directory: one path segment, none of the segments
    normalisation treats specially. *)
Definition plain (x : string) : Prop :=
  String_split path.sep x = [x] ∧ x ≠ "" ∧ x ≠ "." ∧ x ≠ "..".

(** The absolute path of the file [b] in the directories [dirs] below the
    working directory. *)
Definition underCwd (env : Env) (dirs : list string) (b : string) : string :=
  cwd env +:+ "/" +:+ Array_join "/" (dirs ++ [b]).

(** The base name without its extension, the [name] of [path.parse]. *)
Definition stemOf (b : string) : string :=
  String.substring 0 (String.length b - String.length (path.extOf b)) b.

(** The last argument the chain passes to [path.join] for a base name:
    nothing for an index file, the stem for another html file, the base
    name otherwise. *)
Definition leafOf (b : string) : string :=
  if String.eqb b "index.html" then ""
  else if String.eqb (path.extOf b) ".html" then stemOf b
  else b.

(** The route of one file with the resolver called directly, without the
    memo table. *)
Definition routeOf (env : Env) (rootpath static_dir f : string) : RouteObject :=
  let m := mimeType env (extOfFile env f) in
  {| file := f;
     mime := default "" (type m);
     typeofMime := default "" (typeOf m);
     url := urlFor env rootpath static_dir f;
     base := path.base (path.parse (path.relative (cwd env) (cwd env) f)) |}.

(** A deployment whose working directory lies below a directory named like
    a default ignore entry. *)
Definition vendoredEnv : Env :=
  {| cwd := "/home/u/node_modules/site";
     globSync := fun pattern =>
       if String.eqb pattern "/home/u/node_modules/site/**/*" then
         ["/home/u/node_modules/site/index.html";
          "/home/u/node_modules/site/css/main.css"]
       else [];
     statIsFile := fun _ => true;
     mimeType := sampleMime |}.

(** * Properties *)

(** ** Strings *)

Lemma String_app_length (s t : string) :
  String.length (s +:+ t) = String.length s + String.length t.
Proof. induction s as [|c s IH]; simpl; [done | by rewrite IH]. Qed.

Lemma String_app_nil_inv (s t : string) : s +:+ t = "" → s = "" ∧ t = "".
Proof. destruct s; simpl; [done | discriminate]. Qed.

Lemma String_app_longer (s t : string) : t ≠ "" → s +:+ t ≠ s.
Proof.
  intros Ht Heq. apply (f_equal String.length) in Heq.
  rewrite String_app_length in Heq. destruct t; [done | simpl in Heq; lia].
Qed.

(** ** The ignore set *)

Section ignores.

Lemma Set_add_elem (acc : list string) (x y : string) :
  y ∈ Set_add acc x ↔ y ∈ acc ∨ y = x.
Proof.
  unfold Set_add. case_bool_decide as Hx.
  - split; [by left | intros [H | ->]; done].
  - rewrite elem_of_app, list_elem_of_singleton. done.
Qed.

Lemma Set_add_NoDup (acc : list string) (x : string) :
  NoDup acc → NoDup (Set_add acc x).
Proof.
  intros Hacc. unfold Set_add. case_bool_decide as Hx; [done |].
  apply NoDup_app. split_and!; [done | | apply NoDup_singleton].
  intros y Hy ->%list_elem_of_singleton. done.
Qed.

Lemma foldl_Set_add (xs acc : list string) :
  NoDup acc →
  NoDup (foldl Set_add acc xs) ∧
  ∀ y, y ∈ foldl Set_add acc xs ↔ y ∈ acc ∨ y ∈ xs.
Proof.
  revert acc. induction xs as [|x xs IH]; intros acc Hacc; simpl.
  - split; [done |]. intros y. rewrite elem_of_nil. tauto.
  - destruct (IH (Set_add acc x) (Set_add_NoDup acc x Hacc)) as [Hnd Hin].
    split; [done |]. intros y.
    rewrite Hin, Set_add_elem, elem_of_cons. tauto.
Qed.

Lemma Set_from_NoDup (xs : list string) : NoDup (Set_from xs).
Proof. apply foldl_Set_add, NoDup_nil_2. Qed.

Lemma Set_from_elem (xs : list string) (y : string) :
  y ∈ Set_from xs ↔ y ∈ xs.
Proof.
  unfold Set_from.
  destruct (foldl_Set_add xs [] (NoDup_nil_2 (A:=string))) as [_ ->].
  rewrite elem_of_nil. tauto.
Qed.

Lemma createIgnores_elem (ignore : option (list string)) (y : string) :
  y ∈ createIgnores ignore ↔ y ∈ default [] ignore ∨ y ∈ defaultIgnores.
Proof.
  unfold createIgnores. rewrite Set_from_elem.
  destruct ignore as [l|]; simpl.
  - by rewrite elem_of_app.
  - rewrite elem_of_nil. tauto.
Qed.

Lemma filterFiles_elem (env : Env) (files ignsSet : list string) (f : string) :
  f ∈ filterFiles env files ignsSet ↔
  f ∈ files ∧ isFile env f = true ∧
  ∀ sg, sg ∈ String_split path.sep f → sg ∉ ignsSet.
Proof.
  unfold filterFiles. rewrite !list_elem_of_In, !filter_In.
  rewrite negb_true_iff. unfold Array_some, Set_has.
  rewrite <- not_true_iff_false, existsb_exists.
  setoid_rewrite bool_decide_eq_true. setoid_rewrite <- list_elem_of_In.
  split.
  - intros [[Hf Hno] Hfile]. split_and!; [done | done |].
    intros sg Hsg Hign. apply Hno. by exists sg.
  - intros (Hf & Hfile & Hno). split_and!; [done | | done].
    intros (sg & Hsg & Hign). by apply (Hno sg).
Qed.

End ignores.

(** C5. Whatever list the caller supplies, the ignore list built by
    [createIgnores] has no duplicates and holds exactly the members of the
    caller's list and of the built-in defaults, so it contains every
    default; and no path that [getFiles] (through [filterFiles]) lets
    through has a segment among the defaults. *)
Theorem createIgnores_union_of_defaults (ignore : option (list string)) :
  NoDup (createIgnores ignore) ∧
  (∀ y, y ∈ createIgnores ignore ↔ y ∈ default [] ignore ∨ y ∈ defaultIgnores) ∧
  defaultIgnores ⊆ createIgnores ignore ∧
  (∀ env staticDir fileExt warning f sg,
      f ∈ getFiles env staticDir fileExt warning ignore →
      sg ∈ String_split path.sep f →
      (sg ∉ defaultIgnores) ∧ (sg ∉ default [] ignore)).
Proof.
  split_and!.
  - apply Set_from_NoDup.
  - apply createIgnores_elem.
  - intros y Hy. apply createIgnores_elem. by right.
  - intros env sd fe w f sg Hf Hsg. unfold getFiles in Hf.
    apply filterFiles_elem in Hf as (_ & _ & Hno).
    specialize (Hno sg Hsg). rewrite Set_from_elem, createIgnores_elem in Hno.
    tauto.
Qed.

Lemma createIgnores_union_of_defaults_witness :
  "/srv/index.html" ∈ getFiles sampleEnv None None false (Some ["blog"]) ∧
  ("srv" ∉ defaultIgnores) ∧
  "/srv/node_modules/x.js" ∉ getFiles sampleEnv None None false (Some ["blog"]).
Proof.
  destruct (createIgnores_union_of_defaults (Some ["blog"])) as (_ & _ & _ & H).
  assert (Hin : "/srv/index.html" ∈ getFiles sampleEnv None None false (Some ["blog"]))
    by (vm_compute; apply list_elem_of_here).
  split_and!; [done | |].
  - apply (H sampleEnv None None false "/srv/index.html" "srv" Hin).
    vm_compute. apply list_elem_of_further, list_elem_of_here.
  - intros Hx. refine (proj1 (H sampleEnv None None false _ "node_modules" Hx _) _).
    + vm_compute. do 2 apply list_elem_of_further. apply list_elem_of_here.
    + vm_compute. apply list_elem_of_here.
Defined.

(** ** The glob pattern *)

(** C10. An empty extension list is not treated as an absent one: it gives
    the directory followed by the brace pattern with nothing between the
    braces, and only an absent list gives the match-all pattern. *)
Theorem createPattern_empty_list_vs_absent (dirtpath : string) :
  createPattern dirtpath (Some []) = dirtpath +:+ "/**/*.{}" ∧
  createPattern dirtpath None = dirtpath +:+ "/**/*" ∧
  createPattern dirtpath (Some []) ≠ createPattern dirtpath None ∧
  (∀ ext, createPattern dirtpath ext = dirtpath +:+ "/**/*" ↔ ext = None).
Proof.
  split_and!; [done | done | |].
  - simpl. intros H%(inj (String.app dirtpath)). discriminate.
  - intros [ext|]; split; try done.
    unfold createPattern.
    destruct (Nat.eqb (length ext) 1);
      intros H%(inj (String.app dirtpath)); discriminate.
Qed.

(** ** Path joining and the classification chain *)

Section classification.

Lemma normalize_nonempty (p : string) : path.normalize p ≠ "".
Proof.
  unfold path.normalize.
  destruct (String.eqb p ""); [done |].
  destruct (String.eqb_spec
    (Array_join "/"
       (path.normalizeSegs (negb (starts_with_slash p)) []
          (String_split path.sep p))) "") as [_ | Hbody].
  - by destruct (starts_with_slash p), (ends_with_slash p).
  - destruct (starts_with_slash p); [done |].
    destruct (ends_with_slash p); [| done].
    intros [H _]%String_app_nil_inv. done.
Qed.

Lemma join_nonempty (args : list string) : path.join args ≠ "".
Proof.
  unfold path.join.
  destruct (List.filter _ args); [done | apply normalize_nonempty].
Qed.

Lemma rootpathOf_nonempty (options : option GenerateRoutes) :
  rootpathOf options ≠ "".
Proof.
  unfold rootpathOf. destruct (options ≫= rootPath) as [p|]; [| done].
  by destruct (String.eqb_spec p "").
Qed.

Lemma fired_is_Some (static_dir : string) (parsed : path.ParsedPath) :
  is_Some (fired (classify static_dir parsed)).
Proof.
  unfold fired, classify; simpl.
  destruct (String.eqb (path.dir parsed) static_dir),
    (String.eqb (path.base parsed) "index.html"),
    (String.eqb (path.ext parsed) ".html"); simpl; eauto.
Qed.

Lemma urlOf_nonempty (rootpath _dir_name : string) (parsed : path.ParsedPath)
    (b : Branch) :
  rootpath ≠ "" → urlOf rootpath _dir_name parsed (Some b) ≠ "".
Proof. destruct b; simpl; auto using join_nonempty. Qed.

Lemma routes_reducer (env : Env) (rootpath static_dir : string)
    (acc : Run) (f : string) :
  routes (reducer env rootpath static_dir acc f) =
  routes acc ++
    [{| file := f;
        mime := default "" (type (memoMime env
                 (path.ext (path.parse (path.relative (cwd env) (cwd env) f))) acc).1.1);
        typeofMime := default "" (typeOf (memoMime env
                 (path.ext (path.parse (path.relative (cwd env) (cwd env) f))) acc).1.1);
        url := urlFor env rootpath static_dir f;
        base := path.base (path.parse (path.relative (cwd env) (cwd env) f)) |}].
Proof. unfold reducer. by destruct (memoMime _ _ _) as [[m c] l]. Qed.

Lemma urls_foldl_reducer (env : Env) (rootpath static_dir : string)
    (files : list string) (acc : Run) :
  url <$> routes (foldl (reducer env rootpath static_dir) acc files) =
  (url <$> routes acc) ++ (urlFor env rootpath static_dir <$> files).
Proof.
  revert acc. induction files as [|f files IH]; intros acc; simpl.
  - by rewrite app_nil_r.
  - rewrite IH, routes_reducer, fmap_app. simpl. by rewrite <- app_assoc.
Qed.

End classification.

(** C9. The if/else chain of [generateRoutes] is exhaustive: for every
    static directory and every parsed path one of the six branches fires
    (the fall-through past the last test is never taken), and every route
    produced has a url different from the initial empty string. *)
Theorem classification_chain_exhaustive (env : Env)
    (options : option GenerateRoutes) :
  (∀ static_dir parsed, ∃ b, fired (classify static_dir parsed) = Some b) ∧
  (∀ rootpath static_dir f,
      rootpath ≠ "" → urlFor env rootpath static_dir f ≠ "") ∧
  Forall (fun r => url r ≠ "") (generateRoutes env options).
Proof.
  assert (Hurl : ∀ rootpath static_dir f,
             rootpath ≠ "" → urlFor env rootpath static_dir f ≠ "").
  { intros rootpath static_dir f Hroot. unfold urlFor.
    destruct (fired_is_Some static_dir
      (path.parse (path.relative (cwd env) (cwd env) f))) as [b ->].
    by apply urlOf_nonempty. }
  split_and!; [apply fired_is_Some | done |].
  apply Forall_fmap with (f := url) (P := λ u, u ≠ "").
  unfold generateRoutes, generateRoutesRun.
  rewrite urls_foldl_reducer. simpl.
  apply Forall_fmap, Forall_forall. intros f _. simpl.
  apply Hurl, rootpathOf_nonempty.
Qed.

Lemma classification_chain_exhaustive_witness :
  urlFor sampleEnv "/" "." "/srv/index.html" ≠ "".
Proof.
  apply (classification_chain_exhaustive sampleEnv None). done.
Defined.

(** *** Relative paths never have the single dot as their directory *)

Section relative_paths.

(** A segment that survives normalisation: no separator in it, neither
    empty nor the single dot. *)
Let segment (x : string) : Prop :=
  String_split path.sep x = [x] ∧ x ≠ "" ∧ x ≠ ".".

Lemma String_split_nonempty (s : string) : String_split path.sep s ≠ [].
Proof.
  destruct s as [|c s]; simpl; [done |].
  destruct (Ascii.eqb c path.sep); [done |].
  by destruct (String_split path.sep s).
Qed.

Lemma String_split_pieces (s : string) :
  Forall (λ x, String_split path.sep x = [x]) (String_split path.sep s).
Proof.
  induction s as [|c s IH]; simpl; [by repeat constructor |].
  destruct (Ascii.eqb c path.sep) eqn:Hc; [by constructor |].
  destruct (String_split path.sep s) as [|seg segs]; simpl.
  - repeat constructor. simpl. by rewrite Hc.
  - apply Forall_cons in IH as [Hseg Hsegs]. constructor; [| done].
    simpl. by rewrite Hc, Hseg.
Qed.

Lemma String_split_app (x t : string) :
  String_split path.sep x = [x] →
  String_split path.sep (x +:+ "/" +:+ t) = x :: String_split path.sep t.
Proof.
  induction x as [|c x IH]; simpl; [done |].
  destruct (Ascii.eqb c path.sep) eqn:Hc; [intros [= ?] |].
  pose proof (String_split_nonempty x) as Hne.
  destruct (String_split path.sep x) as [|seg segs] eqn:Hx; [done |].
  intros [= -> ->]. unfold String.app in IH |- *. by rewrite IH.
Qed.

Lemma String_split_join (segs : list string) :
  segs ≠ [] → Forall segment segs →
  String_split path.sep (Array_join "/" segs) = segs.
Proof.
  induction segs as [|x [|y rest] IH]; intros Hne Hall; [done | |].
  - apply Forall_cons in Hall as [[Hx _] _]. done.
  - apply Forall_cons in Hall as [[Hx _] Hrest].
    change (Array_join "/" (x :: y :: rest))
      with (x +:+ "/" +:+ Array_join "/" (y :: rest)).
    rewrite String_split_app by done. f_equal. by apply IH.
Qed.

Ltac segments :=
  first [ done | apply Forall_nil_2 | apply Forall_cons_2; segments ].

Lemma normalizeSegs_segments (above : bool) (segs acc : list string) :
  Forall (λ x, String_split path.sep x = [x]) segs → Forall segment acc →
  Forall segment (path.normalizeSegs above acc segs).
Proof.
  revert acc. induction segs as [|x segs IH]; intros acc Hsegs Hacc; simpl.
  - by apply Forall_rev.
  - apply Forall_cons in Hsegs as [Hx Hsegs].
    destruct (String.eqb_spec x "") as [-> | Hx0]; simpl; [by apply IH |].
    destruct (String.eqb_spec x ".") as [-> | Hx1]; simpl; [by apply IH |].
    assert (Hseg : segment x) by done.
    destruct (String.eqb x "..").
    + destruct acc as [|top acc]; [destruct above; apply IH; segments |].
      destruct (String.eqb top "..").
      * destruct above; apply IH; segments.
      * apply IH; [done |]. by apply Forall_cons in Hacc as [_ ?].
    + apply IH; segments.
Qed.

Lemma dropCommon_segments (a b : list string) :
  Forall segment a → Forall segment b →
  Forall segment (path.dropCommon a b).1 ∧ Forall segment (path.dropCommon a b).2.
Proof.
  revert b. induction a as [|x a IH]; intros [|y b] Ha Hb; simpl; try done.
  destruct (String.eqb x y); [| done].
  apply Forall_cons in Ha as [_ Ha]. apply Forall_cons in Hb as [_ Hb]. by apply IH.
Qed.

Lemma dropTrailingEmpty_segments (segs : list string) :
  Forall segment segs → path.dropTrailingEmpty segs = segs.
Proof.
  induction segs as [|x segs IH]; intros Hall; simpl; [done |].
  apply Forall_cons in Hall as [(_ & Hx & _) Hall]. rewrite IH by done.
  destruct segs; [| done]. by destruct (String.eqb_spec x "").
Qed.

Lemma Array_join_not_dot (segs : list string) :
  Forall segment segs → Array_join "/" segs ≠ ".".
Proof.
  destruct segs as [|x [|y rest]]; intros Hall; [done | |].
  - by apply Forall_cons in Hall as [(_ & _ & Hx) _].
  - apply Forall_cons in Hall as [(_ & Hx & _) _].
    change (Array_join "/" (x :: y :: rest))
      with (x +:+ "/" +:+ Array_join "/" (y :: rest)).
    intros H%(f_equal String.length). rewrite !String_app_length in H.
    destruct x; [done | simpl in H; lia].
Qed.

Lemma removelast_segments (segs : list string) :
  Forall segment segs → Forall segment (removelast segs).
Proof.
  induction segs as [|x [|y rest] IH]; intros Hall; simpl; [done | done |].
  apply Forall_cons in Hall as [Hx Hall]. constructor; [done | by apply IH].
Qed.

Lemma parse_join_dir (segs : list string) :
  Forall segment segs → path.dir (path.parse (Array_join "/" segs)) ≠ ".".
Proof.
  intros Hall. destruct (decide (segs = [])) as [-> | Hne]; [done |].
  unfold path.parse. simpl.
  rewrite String_split_join, dropTrailingEmpty_segments by done.
  pose proof (removelast_segments segs Hall) as Hfront.
  destruct (removelast segs) as [|x front] eqn:Hrem.
  - by destruct (starts_with_slash _).
  - destruct (String.eqb _ ""); [done |]. by apply Array_join_not_dot.
Qed.

(** Whatever the working directory and the file, the directory parsed from
    the relative path is not the single dot. *)
Lemma relative_dir_not_dot (cwd from to : string) :
  path.dir (path.parse (path.relative cwd from to)) ≠ ".".
Proof.
  unfold path.relative.
  assert (Hres : ∀ q, Forall segment (path.resolveSegs cwd q)).
  { intros q. apply normalizeSegs_segments; [apply String_split_pieces | done]. }
  destruct (dropCommon_segments _ _ (Hres from) (Hres to)) as [Hup Hdown].
  destruct (path.dropCommon _ _) as [up down]; simpl in *.
  apply parse_join_dir, Forall_app. split; [| done].
  apply Forall_forall. intros x (y & <- & _)%list_elem_of_In%in_map_iff.
  by repeat split.
Qed.

End relative_paths.

(** Under the default static directory no file takes a root branch of
    the chain: index files, other html files and other files all go through
    the nested branches. *)
Lemma default_staticDir_takes_nested_branch (env : Env) (f : string) :
  fired (classify "."
           (path.parse (path.relative (cwd env) (cwd env) f)))
    ∈ [Some SubIndex; Some SubHtmls; Some SubFiles].
Proof.
  pose proof (relative_dir_not_dot (cwd env) (cwd env) f) as Hdir.
  generalize dependent (path.parse (path.relative (cwd env) (cwd env) f)).
  intros parsed Hdir. unfold fired, classify; simpl.
  destruct (String.eqb_spec (path.dir parsed) ".") as [? | _]; [done |].
  destruct (String.eqb (path.base parsed) "index.html"),
    (String.eqb (path.ext parsed) ".html"); simpl;
    repeat (apply list_elem_of_here || apply list_elem_of_further).
Qed.

(** With a one-segment static directory the five example files get the
    urls of the classification table, whatever the root path. *)
Lemma urlFor_table_in_public (rootpath : string) :
  urlFor sampleEnv rootpath "public" "/srv/public/index.html" = rootpath ∧
  urlFor sampleEnv rootpath "public" "/srv/public/blog/index.html"
    = path.join [rootpath; "blog"] ∧
  urlFor sampleEnv rootpath "public" "/srv/public/about.html"
    = path.join [rootpath; "about"] ∧
  urlFor sampleEnv rootpath "public" "/srv/public/logo.png"
    = path.join [rootpath; "logo.png"] ∧
  urlFor sampleEnv rootpath "public" "/srv/public/assets/logo.png"
    = path.join [rootpath; "assets"; "logo.png"].
Proof. by split_and!. Qed.

Lemma generateRoutes_urls_in_public :
  url <$> generateRoutes sampleEnv (Some (inDir "public")) =
  ["/"; "/blog"; "/about"; "/logo.png"; "/assets/logo.png"].
Proof. by vm_compute. Qed.

(** C1, at the default static directory. Run with no options in [/srv],
    [generateRoutes] gives the nested [blog/index.html] the url of the root
    and the nested [assets/logo.png] the url of the root-level [logo.png],
    where the table asks for the root path joined with [blog] and with
    [assets] and [logo.png]: no parsed directory equals the default
    [static_dir], so the nested branches run for every file, and dropping
    the first segment of the directory drops the subdirectory itself. *)
Theorem generateRoutes_default_staticDir_nested :
  (file <$> generateRoutes sampleEnv None =
     ["/srv/index.html"; "/srv/blog/index.html"; "/srv/about.html";
      "/srv/logo.png"; "/srv/assets/logo.png"]) ∧
  (url <$> generateRoutes sampleEnv None =
     ["/"; "/"; "/about"; "/logo.png"; "/logo.png"]) ∧
  urlFor sampleEnv "/" "." "/srv/blog/index.html" ≠ path.join ["/"; "blog"] ∧
  urlFor sampleEnv "/" "." "/srv/assets/logo.png"
    ≠ path.join ["/"; "assets"; "logo.png"] ∧
  fired (classify "."
    (path.parse (path.relative "/srv" "/srv" "/srv/index.html"))) = Some SubIndex.
Proof. by vm_compute. Qed.

(** ** The memoized MIME lookup *)

Section memo.

Context (env : Env).

Lemma RunInv_init :
  RunInv env {| routes := []; mimeCache := ∅; resolved := [] |}.
Proof.
  split; simpl.
  - apply NoDup_nil_2.
  - intros e. rewrite lookup_empty, elem_of_nil. split; [done | by intros [? ?]].
  - intros e m. by rewrite lookup_empty.
  - intros e. rewrite elem_of_nil. split; [done |].
    intros (x & Hx & _). by apply elem_of_nil in Hx.
  - intros x Hx. by apply elem_of_nil in Hx.
Qed.

Lemma memoMime_hit (e : string) (r : Run) (m : MimeType) :
  mimeCache r !! e = Some m → memoMime env e r = (m, mimeCache r, resolved r).
Proof. unfold memoMime. by intros ->. Qed.

Lemma memoMime_miss (e : string) (r : Run) :
  mimeCache r !! e = None →
  memoMime env e r =
    (mimeType env e, <[e := mimeType env e]> (mimeCache r), resolved r ++ [e]).
Proof. unfold memoMime. by intros ->. Qed.

Lemma RunInv_reducer (rootpath static_dir : string) (r : Run) (f : string) :
  RunInv env r → RunInv env (reducer env rootpath static_dir r f).
Proof.
  intros [Honce Hkeys Hmemo Hexts Hmime].
  unfold reducer. fold (extOfFile env f). set (e := extOfFile env f).
  destruct (mimeCache r !! e) as [m|] eqn:Hlook.
  - rewrite (memoMime_hit e r m Hlook).
    assert (Hm : m = mimeType env e) by eauto. subst m.
    assert (He : e ∈ resolved r) by (apply Hkeys; eauto).
    split; simpl; try done.
    + intros e'. rewrite Hexts. setoid_rewrite elem_of_app.
      setoid_rewrite list_elem_of_singleton. split.
      * intros (x & Hx & Hxe). exists x. eauto.
      * intros (x & [Hx | ->] & Hxe); [eauto |]. simpl in Hxe. subst e'.
        by apply Hexts.
    + intros x [Hx | ->%list_elem_of_singleton]%elem_of_app; [auto | done].
  - rewrite (memoMime_miss e r Hlook).
    assert (He : e ∉ resolved r).
    { rewrite Hkeys, Hlook. by intros [? ?]. }
    split; simpl.
    + apply NoDup_app. split_and!; [done | | apply NoDup_singleton].
      intros y Hy ->%list_elem_of_singleton. done.
    + intros e'. rewrite elem_of_app, list_elem_of_singleton, Hkeys.
      destruct (decide (e = e')) as [<- | Hne].
      * rewrite lookup_insert_eq. split; eauto.
      * rewrite lookup_insert_ne by done. split; [intros [H | H] | ]; eauto.
        congruence.
    + intros e' m. destruct (decide (e = e')) as [<- | Hne].
      * rewrite lookup_insert_eq. congruence.
      * rewrite lookup_insert_ne by done. apply Hmemo.
    + intros e'. rewrite elem_of_app, list_elem_of_singleton, Hexts.
      setoid_rewrite elem_of_app. setoid_rewrite list_elem_of_singleton.
      split.
      * intros [(x & Hx & Hxe) | ->]; [eauto |]. eexists. split; [by right |]. done.
      * intros (x & [Hx | ->] & Hxe); [left; eauto | right; by simpl in Hxe].
    + intros x [Hx | ->%list_elem_of_singleton]%elem_of_app; [auto | done].
Qed.

Lemma RunInv_foldl (rootpath static_dir : string) (files : list string)
    (r : Run) :
  RunInv env r → RunInv env (foldl (reducer env rootpath static_dir) r files).
Proof.
  revert r. induction files as [|f files IH]; intros r Hr; simpl; [done |].
  by apply IH, RunInv_reducer.
Qed.

Lemma RunInv_generateRoutesRun (options : option GenerateRoutes) :
  RunInv env (generateRoutesRun env options).
Proof. apply RunInv_foldl, RunInv_init. Qed.

End memo.

(** C8. In one run of [generateRoutes] the resolver is called at most once
    for each extension (the list of its calls has no duplicates, and holds
    exactly the extensions of the routes produced), every route carries the
    resolver's answer for the extension of its file, and an undefined [type]
    or [typeOf] becomes the empty string in [mime] or [typeofMime]. *)
Theorem mime_resolved_once_per_extension (env : Env)
    (options : option GenerateRoutes) :
  let run := generateRoutesRun env options in
  NoDup (resolved run) ∧
  (∀ e, e ∈ resolved run ↔
        ∃ x, x ∈ generateRoutes env options ∧ extOfFile env (file x) = e) ∧
  (∀ x, x ∈ generateRoutes env options →
        mime x = default "" (type (mimeType env (extOfFile env (file x)))) ∧
        typeofMime x = default "" (typeOf (mimeType env (extOfFile env (file x)))) ∧
        (type (mimeType env (extOfFile env (file x))) = None → mime x = "") ∧
        (typeOf (mimeType env (extOfFile env (file x))) = None → typeofMime x = "")).
Proof.
  intros run.
  destruct (RunInv_generateRoutesRun env options) as [Honce _ _ Hexts Hmime].
  split_and!; [done | done |].
  intros x Hx. destruct (Hmime x Hx) as [Hm Ht].
  split_and!; [done | done | |].
  - intros H. by rewrite Hm, H.
  - intros H. by rewrite Ht, H.
Qed.

Lemma mime_resolved_once_per_extension_witness :
  resolved (generateRoutesRun sampleEnv None) = [".html"; ".png"] ∧
  ∃ x, x ∈ generateRoutes sampleEnv (Some (inDir "site_b")) ∧
       file x = "/srv/site_b/data.bin" ∧ mime x = "" ∧ typeofMime x = "".
Proof.
  split; [by vm_compute |].
  set (x := {| file := "/srv/site_b/data.bin"; url := "/data.bin"; mime := "";
               typeofMime := ""; base := "data.bin" |}).
  assert (Hx : x ∈ generateRoutes sampleEnv (Some (inDir "site_b"))).
  { vm_compute. apply list_elem_of_further, list_elem_of_here. }
  exists x. split_and!; [done | done | |];
    destruct (mime_resolved_once_per_extension sampleEnv (Some (inDir "site_b")))
      as (_ & _ & H);
    destruct (H x Hx) as (_ & _ & Hm & Ht).
  - by apply Hm.
  - by apply Ht.
Defined.

(** ** The request handler *)

Section dispatch.

Lemma findRoute_Some (rt : list RouteObject) (u : string) (found : RouteObject) :
  findRoute rt u = Some found ↔
  ∃ before after, rt = before ++ found :: after ∧ url found = u ∧
                  ∀ r, r ∈ before → url r ≠ u.
Proof.
  unfold findRoute. induction rt as [|r rt IH]; simpl.
  - split; [done |]. intros (before & after & H & _). by destruct before.
  - destruct (String.eqb_spec (url r) u) as [Hr | Hr].
    + split.
      * intros [= <-]. exists [], rt. split_and!; [done | done |].
        intros x Hx. by apply elem_of_nil in Hx.
      * intros (before & after & Hrt & Hf & Hbefore).
        destruct before as [|b before]; simpl in Hrt.
        -- by injection Hrt as -> _.
        -- injection Hrt as -> _. exfalso. apply (Hbefore b); [left | done].
    + rewrite IH. split.
      * intros (before & after & -> & Hf & Hbefore).
        exists (r :: before), after. split_and!; [done | done |].
        intros x [-> | Hx]%elem_of_cons; auto.
      * intros (before & after & Hrt & Hf & Hbefore).
        destruct before as [|b before]; simpl in Hrt.
        -- injection Hrt as -> _. done.
        -- injection Hrt as -> ->. exists before, after.
           split_and!; [done | done |]. intros x Hx. apply Hbefore. by right.
Qed.

Lemma findRoute_None (rt : list RouteObject) (u : string) :
  findRoute rt u = None ↔ ∀ r, r ∈ rt → url r ≠ u.
Proof.
  unfold findRoute. induction rt as [|r rt IH]; simpl.
  - split; [| done]. intros _ x Hx. by apply elem_of_nil in Hx.
  - destruct (String.eqb_spec (url r) u) as [Hr | Hr].
    + split; [done |]. intros H. exfalso. apply (H r); [left | done].
    + rewrite IH. split.
      * intros H x [-> | Hx]%elem_of_cons; auto.
      * intros H x Hx. apply H. by right.
Qed.

Lemma findRoute_url (rt : list RouteObject) (u : string) (found : RouteObject) :
  findRoute rt u = Some found → url found = u.
Proof. intros (_ & _ & _ & H & _)%findRoute_Some. done. Qed.

Context (rt : list RouteObject) (disk : Disk).

Lemma handle_not_found (req : request.t) (resp : response.t) (p : Process) :
  findRoute rt (request.url req) = None →
  handle rt disk req resp p =
    {| settled := Fulfilled; routeObj := rt;
       res := {| response.statusCode := 404;
                 response.sent := Some (Buffer_from html404) |};
       proc := p |}.
Proof. unfold handle. by intros ->. Qed.

Lemma handle_hit (req : request.t) (resp : response.t) (p : Process)
    (found : RouteObject) (cached : Buffer) :
  findRoute rt (request.url req) = Some found →
  store p !! url found = Some cached →
  handle rt disk req resp p =
    {| settled := Fulfilled; routeObj := rt;
       res := {| response.statusCode := 200; response.sent := Some cached |};
       proc := console_log
                 (request.method req +:+ " " +:+ request.url req +:+
                  " 200 (from cache)") p |}.
Proof. unfold handle. by intros -> ->. Qed.

Lemma handle_miss (req : request.t) (resp : response.t) (p : Process)
    (found : RouteObject) (content : Buffer) :
  findRoute rt (request.url req) = Some found →
  store p !! url found = None →
  disk (file found) = Some content →
  handle rt disk req resp p =
    {| settled := Fulfilled; routeObj := rt;
       res := {| response.statusCode := 200; response.sent := Some content |};
       proc := console_log
                 (request.method req +:+ " " +:+ request.url req +:+ " 200")
                 (store_set (url found) content p) |}.
Proof.
  unfold handle, sendFile. intros -> -> Hdisk. rewrite Hdisk. done.
Qed.


End dispatch.

Lemma burmaStatic_handle (env : Env) (options : GenerateRoutes) :
  burmaStatic env options = handle (generateRoutes env (Some options)).
Proof. by destruct options. Qed.

(** C6. The handler takes the first route, in table order, whose url is
    string-equal to the request url as it stands: a route is found exactly
    when the table splits into routes with other urls, then that route with
    the very url of the request; no route is found exactly when no url of the
    table equals the request url, and the request is then answered 404. So
    against a table whose urls are all [u], a request for [u] with a slash or
    a query string appended, or in another letter case, finds nothing. *)
Theorem dispatch_first_exact_match (rt : list RouteObject) (u : string) :
  (∀ found, findRoute rt u = Some found ↔
            ∃ before after, rt = before ++ found :: after ∧ url found = u ∧
                            ∀ r, r ∈ before → url r ≠ u) ∧
  (findRoute rt u = None ↔ ∀ r, r ∈ rt → url r ≠ u) ∧
  (∀ disk req resp p found content,
      request.url req = u → findRoute rt u = Some found →
      store p !! u = None → disk (file found) = Some content →
      res (handle rt disk req resp p) =
        {| response.statusCode := 200; response.sent := Some content |}) ∧
  (∀ disk req resp p,
      request.url req = u → (∀ r, r ∈ rt → url r ≠ u) →
      response.statusCode (res (handle rt disk req resp p)) = 404) ∧
  (Forall (λ r, url r = u) rt →
      findRoute rt (u +:+ "/") = None ∧
      (∀ query, findRoute rt (u +:+ "?" +:+ query) = None) ∧
      (u = "/about" → findRoute rt "/About" = None)).
Proof.
  split_and!.
  - intros found. apply findRoute_Some.
  - apply findRoute_None.
  - intros disk req resp p found content <- Hfound Hstore Hdisk.
    pose proof (findRoute_url _ _ _ Hfound) as Hurl.
    rewrite (handle_miss rt disk req resp p found content); try done.
    by rewrite Hurl.
  - intros disk req resp p <- Hnone%findRoute_None.
    by rewrite handle_not_found.
  - intros Hall. rewrite Forall_forall in Hall.
    split_and!.
    + apply findRoute_None. intros r ->%Hall. intros H. symmetry in H.
      by apply String_app_longer in H.
    + intros query. apply findRoute_None. intros r ->%Hall. intros H.
      symmetry in H. by apply String_app_longer in H.
    + intros ->. apply findRoute_None. by intros r ->%Hall.
Qed.

Lemma dispatch_first_exact_match_witness :
  findRoute
    [ {| file := "/srv/a.html"; url := "/about"; mime := ""; typeofMime := "";
         base := "a.html" |};
      {| file := "/srv/b.html"; url := "/about"; mime := ""; typeofMime := "";
         base := "b.html" |} ] "/about"
  = Some {| file := "/srv/a.html"; url := "/about"; mime := "";
            typeofMime := ""; base := "a.html" |} ∧
  findRoute
    [ {| file := "/srv/a.html"; url := "/about"; mime := ""; typeofMime := "";
         base := "a.html" |};
      {| file := "/srv/b.html"; url := "/about"; mime := ""; typeofMime := "";
         base := "b.html" |} ] "/about/" = None.
Proof.
  set (a := {| file := "/srv/a.html"; url := "/about"; mime := "";
               typeofMime := ""; base := "a.html" |}).
  set (b := {| file := "/srv/b.html"; url := "/about"; mime := "";
               typeofMime := ""; base := "b.html" |}).
  destruct (dispatch_first_exact_match [a; b] "/about") as (Hsome & _ & _ & _ & Hvar).
  split.
  - apply Hsome. exists [], [b]. split_and!; [done | done |].
    intros r Hr. by apply elem_of_nil in Hr.
  - destruct Hvar as (Hslash & _ & _); [| exact Hslash].
    apply Forall_cons. split; [done |]. by apply Forall_singleton.
Defined.

(** C7. A request whose url equals the url of no route, whatever its
    method, is answered with status 404 and the embedded document as body;
    the promise is fulfilled, and the store, the console and the route table
    are as they were. *)
Theorem unmatched_request_gets_404 (rt : list RouteObject) (disk : Disk)
    (req : request.t) (resp : response.t) (p : Process) :
  (∀ r, r ∈ rt → url r ≠ request.url req) →
  handle rt disk req resp p =
    {| settled := Fulfilled; routeObj := rt;
       res := {| response.statusCode := 404;
                 response.sent := Some (Buffer_from html404) |};
       proc := p |}.
Proof. intros H%findRoute_None. by apply handle_not_found. Qed.

Lemma unmatched_request_gets_404_witness :
  res (burmaStatic sampleEnv noOptions sampleDisk
         {| request.method := "DELETE"; request.url := "/blog" |}
         response.fresh boot)
  = {| response.statusCode := 404; response.sent := Some (Buffer_from html404) |}.
Proof.
  rewrite burmaStatic_handle.
  rewrite (unmatched_request_gets_404 (generateRoutes sampleEnv (Some noOptions))
             sampleDisk {| request.method := "DELETE"; request.url := "/blog" |}
             response.fresh boot); [done |].
  intros r Hr. vm_compute in Hr.
  repeat (apply elem_of_cons in Hr as [-> | Hr]; [done |]).
  by apply elem_of_nil in Hr.
Defined.

(** ** The console *)

(** C3, as stated, fails: a request answered 404 writes nothing to the
    console. *)
Lemma not_found_writes_no_log_line :
  response.statusCode
    (res (burmaStatic sampleEnv noOptions sampleDisk (GET "/missing")
            response.fresh boot)) = 404 ∧
  stdout (proc (burmaStatic sampleEnv noOptions sampleDisk (GET "/missing")
                  response.fresh boot)) = stdout boot ∧
  ¬ ∃ line,
      stdout (proc (burmaStatic sampleEnv noOptions sampleDisk (GET "/missing")
                      response.fresh boot)) = stdout boot ++ [line].
Proof.
  split_and!; [by vm_compute | by vm_compute |].
  intros [line H]. vm_compute in H. discriminate.
Qed.

(** C3, amended. A request that matches a route and is served writes exactly
    one line, the method, the url and the status 200 separated by spaces,
    followed by the cache tag exactly when the body came from the store; a
    request that matches no route is answered 404 and writes no line. *)
Theorem log_line_for_each_served_request (rt : list RouteObject) (disk : Disk)
    (req : request.t) (resp : response.t) (p : Process) :
  (∀ found cached,
      findRoute rt (request.url req) = Some found →
      store p !! url found = Some cached →
      stdout (proc (handle rt disk req resp p)) =
        stdout p ++ [request.method req +:+ " " +:+ request.url req +:+
                     " 200" +:+ " (from cache)"]) ∧
  (∀ found content,
      findRoute rt (request.url req) = Some found →
      store p !! url found = None →
      disk (file found) = Some content →
      stdout (proc (handle rt disk req resp p)) =
        stdout p ++ [request.method req +:+ " " +:+ request.url req +:+ " 200"]) ∧
  (findRoute rt (request.url req) = None →
      response.statusCode (res (handle rt disk req resp p)) = 404 ∧
      stdout (proc (handle rt disk req resp p)) = stdout p).
Proof.
  split_and!.
  - intros found cached Hfound Hstore.
    by rewrite (handle_hit rt disk req resp p found cached).
  - intros found content Hfound Hstore Hdisk.
    by rewrite (handle_miss rt disk req resp p found content).
  - intros Hnone. by rewrite handle_not_found.
Qed.

Lemma log_line_for_each_served_request_witness :
  stdout (proc (burmaStatic sampleEnv noOptions sampleDisk (GET "/about")
                  response.fresh boot)) = ["GET /about 200"] ∧
  stdout (proc (burmaStatic sampleEnv noOptions sampleDisk (GET "/about")
                  response.fresh
                  {| store := {["/about" := Buffer_from "old"]}; stdout := [] |}))
    = ["GET /about 200 (from cache)"] ∧
  stdout (proc (burmaStatic sampleEnv noOptions sampleDisk (GET "/nowhere")
                  response.fresh boot)) = [].
Proof.
  rewrite burmaStatic_handle.
  set (about := {| file := "/srv/about.html"; url := "/about";
                   mime := "text/html"; typeofMime := "text";
                   base := "about.html" |}).
  split_and!.
  - destruct (log_line_for_each_served_request
                (generateRoutes sampleEnv (Some noOptions)) sampleDisk
                (GET "/about") response.fresh boot) as (_ & Hmiss & _).
    by apply (Hmiss about (Buffer_from "about")).
  - destruct (log_line_for_each_served_request
                (generateRoutes sampleEnv (Some noOptions)) sampleDisk
                (GET "/about") response.fresh
                {| store := {["/about" := Buffer_from "old"]}; stdout := [] |})
      as (Hhit & _ & _).
    by apply (Hhit about (Buffer_from "old")).
  - destruct (log_line_for_each_served_request
                (generateRoutes sampleEnv (Some noOptions)) sampleDisk
                (GET "/nowhere") response.fresh boot) as (_ & _ & Hnone).
    by apply Hnone.
Defined.

(** ** The cache *)

Section overlap.

(** Run without interruption, the two steps are the handler. *)
Lemma handle_start_resume (rt : list RouteObject) (disk : Disk)
    (req : request.t) (resp : response.t) (p : Process) :
  handle rt disk req resp p =
  match start rt req resp p with
  | Finished h => h
  | Reading found => resume rt disk req resp found (disk (file found)) p
  end.
Proof.
  unfold handle, start, resume.
  destruct (findRoute rt (request.url req)) as [found|]; [| done].
  destruct (store p !! url found); [done |].
  by destruct (disk (file found)).
Qed.

Lemma start_miss (rt : list RouteObject) (req : request.t) (resp : response.t)
    (p : Process) (found : RouteObject) :
  findRoute rt (request.url req) = Some found →
  store p !! url found = None →
  start rt req resp p = Reading found.
Proof. unfold start. by intros -> ->. Qed.

Lemma start_hit (rt : list RouteObject) (req : request.t) (resp : response.t)
    (p : Process) (found : RouteObject) (cached : Buffer) :
  findRoute rt (request.url req) = Some found →
  store p !! url found = Some cached →
  start rt req resp p =
    Finished
      {| settled := Fulfilled; routeObj := rt;
         res := {| response.statusCode := 200; response.sent := Some cached |};
         proc := console_log
                   (request.method req +:+ " " +:+ request.url req +:+
                    " 200 (from cache)") p |}.
Proof. unfold start. by intros -> ->. Qed.

Lemma start_Reading (rt : list RouteObject) (req : request.t)
    (resp : response.t) (p : Process) (f : RouteObject) :
  start rt req resp p = Reading f →
  findRoute rt (request.url req) = Some f ∧ url f = request.url req ∧
  store p !! url f = None.
Proof.
  unfold start.
  destruct (findRoute rt (request.url req)) as [found|] eqn:Hfound; [| done].
  destruct (store p !! url found) eqn:Hs; [done |].
  intros [= <-]. split_and!; [done | by apply (findRoute_url rt) | done].
Qed.

Lemma start_Finished_store (rt : list RouteObject) (req : request.t)
    (resp : response.t) (p : Process) (h : Handled) :
  start rt req resp p = Finished h → store (proc h) = store p.
Proof.
  unfold start.
  destruct (findRoute rt (request.url req)) as [found|]; [| by intros [= <-]].
  destruct (store p !! url found); [by intros [= <-] | done].
Qed.

Context (found : RouteObject) (content : Buffer).

Lemma react_waitForFile (l : Loop) (e : Event) :
  sameFile found content e → waitForFile found l →
  waitForFile found (react l e).
Proof.
  unfold waitForFile. intros He Hl. destruct e as [rt req | i read stream]; simpl.
  - destruct (start rt req response.fresh (world l)) as [h | f] eqn:Hstart;
      [done |].
    apply Forall_app. split; [done |]. apply Forall_singleton. simpl.
    apply start_Reading in Hstart as (Hf & Hurl & _). intros Hu.
    apply He. by rewrite <- Hu, Hurl.
  - destruct (waiting l !! i) as [w|]; [| done]. simpl.
    by apply Forall_delete.
Qed.

Lemma react_store_kept (l : Loop) (e : Event) :
  sameFile found content e → waitForFile found l →
  store (world l) !! url found = Some content →
  store (world (react l e)) !! url found = Some content.
Proof.
  intros He Hl Hstore. destruct e as [rt req | i read stream]; simpl.
  - destruct (start rt req response.fresh (world l)) as [h | f] eqn:Hstart;
      [| done].
    simpl. by rewrite (start_Finished_store _ _ _ _ _ Hstart).
  - destruct (waiting l !! i) as [w|] eqn:Hw; [| done]. simpl.
    unfold resume. destruct (read (file (w_found w))) as [c|] eqn:Hread;
      [| done].
    simpl. destruct (decide (url (w_found w) = url found)) as [Hu | Hu].
    + rewrite Hu, lookup_insert_eq. f_equal.
      unfold waitForFile in Hl. rewrite Forall_forall in Hl.
      apply He. rewrite <- (Hl w) by (done || by eapply list_elem_of_lookup_2).
      done.
    + by rewrite lookup_insert_ne.
Qed.

Lemma runLoop_waitForFile (es : list Event) (l : Loop) :
  Forall (sameFile found content) es → waitForFile found l →
  waitForFile found (runLoop es l).
Proof.
  revert l. induction es as [|e es IH]; intros l Hes Hl; [done |].
  apply Forall_cons in Hes as [He Hes].
  apply (IH (react l e)); [done | by apply react_waitForFile].
Qed.

Lemma runLoop_store_kept (es : list Event) (l : Loop) :
  Forall (sameFile found content) es → waitForFile found l →
  store (world l) !! url found = Some content →
  store (world (runLoop es l)) !! url found = Some content.
Proof.
  revert l. induction es as [|e es IH]; intros l Hes Hl Hstore; [done |].
  apply Forall_cons in Hes as [He Hes].
  apply (IH (react l e));
    [done | by apply react_waitForFile | by apply react_store_kept].
Qed.

End overlap.

(** C4, as stated, fails, in two ways. The store is one for the process:
    after another handler has served the url, the first serve of this
    handler is already answered from the cache and logged with the tag. And
    the handler yields while it reads the file: when a second request for
    the url arrives before the read of the first has settled, both miss and
    the line of the second has no tag either. *)
Lemma first_tagged_or_second_untagged :
  stdout (proc (burmaStatic sampleEnv (inDir "site_b") sampleDisk (GET "/")
                  response.fresh
                  (proc (burmaStatic sampleEnv (inDir "site_a") sampleDisk
                           (GET "/") response.fresh boot))))
    = ["GET / 200"; "GET / 200 (from cache)"] ∧
  stdout (world (runLoop
            [Call (generateRoutes sampleEnv (Some noOptions)) (GET "/about");
             Call (generateRoutes sampleEnv (Some noOptions)) (GET "/about");
             Settle 0 sampleDisk sampleDisk;
             Settle 0 sampleDisk sampleDisk] bootLoop))
    = ["GET /about 200"; "GET /about 200"].
Proof. by vm_compute. Qed.

(** C4, amended. A request for a url with a matching route arrives while
    the store has no entry for the url, and its read returns the content of
    the file; a second request for the url arrives after the first has
    completed. Whatever other calls and reads overlap with them, as long as
    the url is routed to the same file and the file is read with the same
    content: the first request misses the cache, both responses carry the
    content of the file, the line of the first has no cache tag and the
    line of the second has it. *)
Theorem second_serve_after_first_completes (rt : list RouteObject)
    (found : RouteObject) (content : Buffer) (req1 req2 : request.t)
    (stream : Disk) (l0 : Loop) (es1 es2 : list Event) :
  findRoute rt (request.url req1) = Some found →
  request.url req2 = request.url req1 →
  store (world l0) !! url found = None →
  waitForFile found l0 →
  Forall (sameFile found content) es1 →
  Forall (sameFile found content) es2 →
  stream (file found) = Some content →
  let l1 := runLoop es1 l0 in
  let first :=
    resume rt stream req1 response.fresh found (Some content) (world l1) in
  let l2 :=
    runLoop es2 {| world := proc first; waiting := waiting l1;
                   finished := finished l1 ++ [first] |} in
  start rt req1 response.fresh (world l0) = Reading found ∧
  response.sent (res first) = Some content ∧
  stdout (proc first) =
    stdout (world l1) ++
      [request.method req1 +:+ " " +:+ request.url req1 +:+ " 200"] ∧
  ∃ second,
    start rt req2 response.fresh (world l2) = Finished second ∧
    response.sent (res second) = response.sent (res first) ∧
    stdout (proc second) =
      stdout (world l2) ++
        [request.method req2 +:+ " " +:+ request.url req2 +:+
         " 200 (from cache)"].
Proof.
  intros Hfound Hurl Hstore Hwait Hes1 Hes2 Hstream l1 first l2.
  assert (Hfirst : response.sent (res first) = Some content)
    by (subst first; unfold resume, sendFile; simpl; done).
  assert (Hl2 : store (world l2) !! url found = Some content).
  { subst l2. apply runLoop_store_kept; [done | |].
    - unfold waitForFile. simpl. by apply (runLoop_waitForFile found content).
    - subst first. simpl. apply lookup_insert_eq. }
  split_and!; [by apply start_miss | done | done |].
  eexists. split; [apply (start_hit rt req2 _ _ found content);
                   [by rewrite Hurl | done] |].
  rewrite Hfirst. done.
Qed.

Lemma second_serve_after_first_completes_witness :
  ∃ second,
    start sampleRoutes (GET "/about") response.fresh
      (world (runLoop
         [Settle 0 sampleDisk sampleDisk; Call sampleRoutes (GET "/missing")]
         {| world :=
              proc (resume sampleRoutes sampleDisk (GET "/about")
                      response.fresh aboutRoute (Some (Buffer_from "about"))
                      (world (runLoop [Call sampleRoutes (GET "/about")]
                                bootLoop)));
            waiting :=
              waiting (runLoop [Call sampleRoutes (GET "/about")] bootLoop);
            finished :=
              finished (runLoop [Call sampleRoutes (GET "/about")] bootLoop) ++
              [resume sampleRoutes sampleDisk (GET "/about")
                 response.fresh aboutRoute (Some (Buffer_from "about"))
                 (world (runLoop [Call sampleRoutes (GET "/about")]
                           bootLoop))] |}))
    = Finished second ∧
    response.sent (res second) = Some (Buffer_from "about") ∧
    stdout (proc second) =
      ["GET /about 200"; "GET /about 200"; "GET /about 200 (from cache)"].
Proof.
  destruct (second_serve_after_first_completes sampleRoutes aboutRoute
              (Buffer_from "about") (GET "/about") (GET "/about") sampleDisk
              bootLoop [Call sampleRoutes (GET "/about")]
              [Settle 0 sampleDisk sampleDisk;
               Call sampleRoutes (GET "/missing")])
    as (_ & Hfirst & _ & second & Hstart & Hbody & Hlog).
  - by vm_compute.
  - done.
  - done.
  - apply Forall_nil_2.
  - apply Forall_singleton. intros f Hf. vm_compute in Hf. by injection Hf as <-.
  - repeat apply Forall_cons_2; try apply Forall_nil_2; simpl.
    + intros c Hc. vm_compute in Hc. by injection Hc as <-.
    + intros f Hf. vm_compute in Hf. by injection Hf as <-.
  - done.
  - exists second. split_and!; [exact Hstart | by rewrite Hbody, Hfirst |].
    rewrite Hlog. by vm_compute.
Defined.

(** C2, as stated, fails: the entry one handler writes for a url is what
    another handler, created by a separate call of [burmaStatic] over
    another directory, answers with for the same url. *)
Lemma handlers_share_the_store :
  response.sent
    (res (burmaStatic sampleEnv (inDir "site_b") sampleDisk (GET "/")
            response.fresh boot)) = Some (Buffer_from "site B") ∧
  response.sent
    (res (burmaStatic sampleEnv (inDir "site_b") sampleDisk (GET "/")
            response.fresh
            (proc (burmaStatic sampleEnv (inDir "site_a") sampleDisk (GET "/")
                     response.fresh boot)))) = Some (Buffer_from "site A") ∧
  res (burmaStatic sampleEnv (inDir "site_b") sampleDisk (GET "/")
         response.fresh
         (proc (burmaStatic sampleEnv (inDir "site_a") sampleDisk (GET "/")
                  response.fresh boot)))
  ≠ res (burmaStatic sampleEnv (inDir "site_b") sampleDisk (GET "/")
           response.fresh boot).
Proof. by vm_compute. Qed.

(** C2, amended. The store is one for the whole process: once a handler has
    served a url from disk, any handler of the process whose table has a
    route with that url answers a request for it with the stored content,
    from the cache, whatever file its own route names. *)
Theorem store_is_shared_by_all_handlers (rt1 rt2 : list RouteObject)
    (disk1 disk2 : Disk) (req1 req2 : request.t) (resp1 resp2 : response.t)
    (found1 found2 : RouteObject) (content : Buffer) (p : Process) :
  findRoute rt1 (request.url req1) = Some found1 →
  store p !! url found1 = None →
  disk1 (file found1) = Some content →
  findRoute rt2 (request.url req2) = Some found2 →
  url found2 = url found1 →
  let after1 := proc (handle rt1 disk1 req1 resp1 p) in
  store after1 !! url found2 = Some content ∧
  res (handle rt2 disk2 req2 resp2 after1) =
    {| response.statusCode := 200; response.sent := Some content |} ∧
  stdout (proc (handle rt2 disk2 req2 resp2 after1)) =
    stdout after1 ++ [request.method req2 +:+ " " +:+ request.url req2 +:+
                      " 200 (from cache)"].
Proof.
  intros Hf1 Hstore Hdisk Hf2 Hurl after1.
  assert (Hafter : store after1 !! url found2 = Some content).
  { subst after1. rewrite (handle_miss rt1 disk1 req1 resp1 p found1 content);
      try done. simpl. rewrite Hurl. apply lookup_insert_eq. }
  split; [done |].
  by rewrite (handle_hit rt2 disk2 req2 resp2 after1 found2 content).
Qed.

Lemma store_is_shared_by_all_handlers_witness :
  res (burmaStatic sampleEnv (inDir "site_b") sampleDisk (GET "/")
         response.fresh
         (proc (burmaStatic sampleEnv (inDir "site_a") sampleDisk (GET "/")
                  response.fresh boot)))
  = {| response.statusCode := 200; response.sent := Some (Buffer_from "site A") |}.
Proof.
  rewrite !burmaStatic_handle.
  refine (proj1 (proj2 (store_is_shared_by_all_handlers
    (generateRoutes sampleEnv (Some (inDir "site_a")))
    (generateRoutes sampleEnv (Some (inDir "site_b")))
    sampleDisk sampleDisk (GET "/") (GET "/") response.fresh response.fresh
    {| file := "/srv/site_a/index.html"; url := "/"; mime := "text/html";
       typeofMime := "text"; base := "index.html" |}
    {| file := "/srv/site_b/index.html"; url := "/"; mime := "text/html";
       typeofMime := "text"; base := "index.html" |}
    (Buffer_from "site A") boot _ _ _ _ _))); by vm_compute.
Defined.

(** * Further properties of the code *)

(** ** Paths of files below the working directory *)

Section under_cwd.

Lemma plain_segment (x : string) :
  plain x → String_split path.sep x = [x] ∧ x ≠ "" ∧ x ≠ ".".
Proof. intros (? & ? & ? & _). done. Qed.

Lemma plain_not_absolute (x : string) :
  String_split path.sep x = [x] → x ≠ "" → starts_with_slash x = false.
Proof.
  destruct x as [|c x]; [done |]. simpl. intros Hx _.
  destruct (Ascii.eqb c "/") eqn:Hc; [| done]. change path.sep with "/"%char in Hx.
  rewrite Hc in Hx. discriminate.
Qed.

Lemma String_split_app_sep (a b : string) :
  String_split path.sep (a +:+ "/" +:+ b) =
  String_split path.sep a ++ String_split path.sep b.
Proof.
  induction a as [|c a IH]; simpl; [done |].
  unfold String.app in IH |- *. rewrite IH.
  destruct (Ascii.eqb c path.sep); [done |].
  pose proof (String_split_nonempty a) as Hne.
  by destruct (String_split path.sep a).
Qed.

Lemma normalizeSegs_app (above : bool) (xs ys acc : list string) :
  path.normalizeSegs above acc (xs ++ ys) =
  path.normalizeSegs above (rev (path.normalizeSegs above acc xs)) ys.
Proof.
  revert acc. induction xs as [|x xs IH]; intros acc; simpl.
  - by rewrite rev_involutive.
  - destruct (String.eqb x "" || String.eqb x "."); [apply IH |].
    destruct (String.eqb x ".."); [| apply IH].
    destruct acc as [|top acc]; [apply IH |].
    destruct (String.eqb top ".."); apply IH.
Qed.

Lemma normalizeSegs_plain (above : bool) (ys acc : list string) :
  Forall plain ys → path.normalizeSegs above acc ys = rev acc ++ ys.
Proof.
  revert acc. induction ys as [|y ys IH]; intros acc Hys; simpl.
  - by rewrite app_nil_r.
  - apply Forall_cons in Hys as [(_ & H0 & H1 & H2) Hys].
    apply String.eqb_neq in H0, H1, H2. rewrite H0, H1, H2. simpl.
    rewrite IH by done. simpl. by rewrite <- app_assoc.
Qed.

Lemma dropCommon_prefix (xs ys : list string) :
  path.dropCommon xs (xs ++ ys) = ([], ys).
Proof.
  induction xs as [|x xs IH]; simpl; [by destruct ys |].
  by rewrite String.eqb_refl.
Qed.

Lemma Array_join_absolute (x : string) (rest : list string) :
  x ≠ "" →
  starts_with_slash (Array_join "/" (x :: rest)) = starts_with_slash x.
Proof. destruct x; [done |]. by destruct rest. Qed.

Lemma Array_join_nonempty (x : string) (rest : list string) :
  x ≠ "" → Array_join "/" (x :: rest) ≠ "".
Proof. destruct x; [done |]. by destruct rest. Qed.

Lemma String_split_join_plain (segs : list string) :
  segs ≠ [] → Forall plain segs →
  String_split path.sep (Array_join "/" segs) = segs.
Proof.
  intros Hne Hall. apply String_split_join; [done |].
  eapply Forall_impl; [exact Hall | apply plain_segment].
Qed.

Lemma dropTrailingEmpty_plain (segs : list string) :
  Forall plain segs → path.dropTrailingEmpty segs = segs.
Proof.
  intros Hall. apply dropTrailingEmpty_segments.
  eapply Forall_impl; [exact Hall | apply plain_segment].
Qed.

Lemma starts_with_slash_app (a b : string) :
  starts_with_slash a = true → starts_with_slash (a +:+ b) = true.
Proof. by destruct a. Qed.

(** The relative path of a file below the working directory is the path of
    its directories and its name. *)
Lemma relative_underCwd (env : Env) (dirs : list string) (b : string) :
  starts_with_slash (cwd env) = true →
  Forall plain dirs → plain b →
  path.relative (cwd env) (cwd env) (underCwd env dirs b) =
  Array_join "/" (dirs ++ [b]).
Proof.
  intros Habs Hdirs Hb. unfold path.relative, path.resolveSegs, underCwd.
  rewrite Habs, starts_with_slash_app by done.
  assert (Hall : Forall plain (dirs ++ [b]))
    by (apply Forall_app; split; [done | by apply Forall_singleton]).
  assert (Hne : dirs ++ [b] ≠ []) by (intros [_ [=]]%app_eq_nil).
  rewrite String_split_app_sep, String_split_join_plain by done.
  rewrite normalizeSegs_app, (normalizeSegs_plain false (dirs ++ [b])),
    rev_involutive by done.
  by rewrite dropCommon_prefix.
Qed.

Lemma parse_join_plain (dirs : list string) (b : string) :
  Forall plain dirs → plain b →
  path.parse (Array_join "/" (dirs ++ [b])) =
  {| path.root := ""; path.dir := Array_join "/" dirs; path.base := b;
     path.ext := path.extOf b; path.name := stemOf b |}.
Proof.
  intros Hdirs Hb.
  assert (Hall : Forall plain (dirs ++ [b]))
    by (apply Forall_app; split; [done | by apply Forall_singleton]).
  assert (Hrel : starts_with_slash (Array_join "/" (dirs ++ [b])) = false).
  { destruct dirs as [|d dirs]; simpl app.
    - destruct Hb as (? & ? & _). by apply plain_not_absolute.
    - apply Forall_cons in Hdirs as [(? & ? & _) _].
      rewrite Array_join_absolute by done. by apply plain_not_absolute. }
  assert (Hne : dirs ++ [b] ≠ []) by (intros [_ [=]]%app_eq_nil).
  unfold path.parse.
  rewrite Hrel, String_split_join_plain, dropTrailingEmpty_plain by done.
  rewrite last_last, removelast_last. unfold stemOf. f_equal.
  destruct dirs as [|d dirs]; [done |].
  apply Forall_cons in Hdirs as [(_ & Hd & _) _].
  by rewrite (proj2 (String.eqb_neq _ _) (Array_join_nonempty d dirs Hd)).
Qed.

Lemma dir_name_plain (dirs : list string) :
  Forall plain dirs →
  Array_join "/" (drop 1 (String_split "/" (Array_join "/" dirs))) =
  Array_join "/" (drop 1 dirs).
Proof.
  intros Hdirs. destruct dirs as [|d dirs]; [done |].
  change (String_split "/") with (String_split path.sep).
  by rewrite String_split_join_plain.
Qed.

(** The url of a file below the working directory, read off its
    directories and its name. *)
Lemma urlFor_underCwd (env : Env) (rootpath static_dir : string)
    (dirs : list string) (b : string) :
  starts_with_slash (cwd env) = true →
  Forall plain dirs → plain b →
  urlFor env rootpath static_dir (underCwd env dirs b) =
  urlOf rootpath (Array_join "/" (drop 1 dirs))
    {| path.root := ""; path.dir := Array_join "/" dirs; path.base := b;
       path.ext := path.extOf b; path.name := stemOf b |}
    (fired (classify static_dir
       {| path.root := ""; path.dir := Array_join "/" dirs; path.base := b;
          path.ext := path.extOf b; path.name := stemOf b |})).
Proof.
  intros Habs Hdirs Hb. unfold urlFor.
  rewrite relative_underCwd, parse_join_plain by done. simpl path.dir.
  by rewrite dir_name_plain.
Qed.

End under_cwd.

Ltac plain_names :=
  repeat first
    [ apply Forall_nil_2
    | apply Forall_cons_2
    | by (repeat split; vm_compute) ].

Lemma path_join_skips_middle (rootpath last : string) :
  path.join [rootpath; ""; last] = path.join [rootpath; last].
Proof. done. Qed.

Lemma path_join_skips_last (rootpath mid : string) :
  path.join [rootpath; mid; ""] = path.join [rootpath; mid].
Proof. done. Qed.

Lemma Array_join_longer (d : string) (subs : list string) :
  subs ≠ [] → String.eqb (Array_join "/" (d :: subs)) d = false.
Proof.
  destruct subs as [|x subs]; [done |]. intros _. apply String.eqb_neq.
  change (Array_join "/" (d :: x :: subs))
    with (d +:+ "/" +:+ Array_join "/" (x :: subs)).
  apply String_app_longer. by destruct (Array_join "/" (x :: subs)).
Qed.

(** X1. The classification table, for a static directory of one segment:
    whatever the working directory and the root path, the index file of the
    static directory gets the root path itself, and every other file gets
    the root path joined with its directories below the static directory
    and with nothing (an index file), its stem (another html file) or its
    base name (any other file). *)
Theorem url_table_below_static_dir (env : Env) (rootpath d : string)
    (subs : list string) (b : string) :
  starts_with_slash (cwd env) = true →
  plain d → Forall plain subs → plain b →
  urlFor env rootpath d (underCwd env (d :: subs) b) =
    if bool_decide (subs = []) && String.eqb b "index.html" then rootpath
    else path.join [rootpath; Array_join "/" subs; leafOf b].
Proof.
  intros Habs Hd Hsubs Hb.
  rewrite urlFor_underCwd by (done || by constructor).
  unfold fired, classify, leafOf. simpl drop. cbn [path.dir path.base path.ext
    path.name mainIndex subIndex mainHtmls subHtmls mainFiles subFiles].
  destruct subs as [|x subs].
  - simpl Array_join. rewrite String.eqb_refl. simpl.
    destruct (String.eqb_spec b "index.html") as [-> | Hidx]; [done |].
    destruct (String.eqb (path.extOf b) ".html"); simpl;
      symmetry; apply path_join_skips_middle.
  - rewrite Array_join_longer by done. simpl.
    destruct (String.eqb_spec b "index.html") as [-> | Hidx]; simpl.
    + symmetry. apply path_join_skips_last.
    + by destruct (String.eqb (path.extOf b) ".html").
Qed.

Lemma url_table_below_static_dir_witness :
  urlFor sampleEnv "/docs/" "public" "/srv/public/index.html" = "/docs/" ∧
  urlFor sampleEnv "/docs/" "public" "/srv/public/blog/2024/index.html"
    = "/docs/blog/2024" ∧
  urlFor sampleEnv "/docs/" "public" "/srv/public/blog/post.html"
    = "/docs/blog/post" ∧
  urlFor sampleEnv "/docs/" "public" "/srv/public/assets/logo.min.png"
    = "/docs/assets/logo.min.png".
Proof.
  split_and!.
  - exact (url_table_below_static_dir sampleEnv "/docs/" "public" []
             "index.html" eq_refl ltac:(plain_names) ltac:(plain_names)
             ltac:(plain_names)).
  - exact (url_table_below_static_dir sampleEnv "/docs/" "public"
             ["blog"; "2024"] "index.html" eq_refl ltac:(plain_names)
             ltac:(plain_names) ltac:(plain_names)).
  - exact (url_table_below_static_dir sampleEnv "/docs/" "public"
             ["blog"] "post.html" eq_refl ltac:(plain_names)
             ltac:(plain_names) ltac:(plain_names)).
  - exact (url_table_below_static_dir sampleEnv "/docs/" "public"
             ["assets"] "logo.min.png" eq_refl ltac:(plain_names)
             ltac:(plain_names) ltac:(plain_names)).
Defined.

(** X2. Under the default static directory every file goes through the
    nested branches and its first directory is dropped from the url: a file
    in a directory directly below the working directory gets the url of the
    file of the same name in the working directory itself. *)
Theorem default_static_dir_drops_first_directory (env : Env)
    (rootpath : string) (dirs : list string) (b : string) :
  starts_with_slash (cwd env) = true →
  Forall plain dirs → plain b →
  urlFor env rootpath "." (underCwd env dirs b) =
    path.join [rootpath; Array_join "/" (drop 1 dirs); leafOf b] ∧
  (∀ s, plain s →
        urlFor env rootpath "." (underCwd env [s] b) =
        urlFor env rootpath "." (underCwd env [] b)).
Proof.
  intros Habs Hdirs Hb.
  assert (Hurl : ∀ ds, Forall plain ds →
            urlFor env rootpath "." (underCwd env ds b) =
            path.join [rootpath; Array_join "/" (drop 1 ds); leafOf b]).
  { intros ds Hds. rewrite urlFor_underCwd by done.
    unfold fired, classify, leafOf. cbn [path.dir path.base path.ext
      path.name mainIndex subIndex mainHtmls subHtmls mainFiles subFiles].
    assert (Hdot : String.eqb (Array_join "/" ds) "." = false).
    { apply String.eqb_neq, Array_join_not_dot.
      eapply Forall_impl; [exact Hds | apply plain_segment]. }
    rewrite Hdot. simpl.
    destruct (String.eqb_spec b "index.html") as [-> | Hidx]; simpl.
    - symmetry. apply path_join_skips_last.
    - by destruct (String.eqb (path.extOf b) ".html"). }
  split; [by apply Hurl |].
  intros s Hs.
  rewrite (Hurl [s]) by (by apply Forall_singleton).
  by rewrite (Hurl []) by apply Forall_nil_2.
Qed.

Lemma default_static_dir_drops_first_directory_witness :
  urlFor sampleEnv "/" "." "/srv/assets/img/logo.png" = "/img/logo.png" ∧
  urlFor sampleEnv "/" "." "/srv/blog/about.html"
    = urlFor sampleEnv "/" "." "/srv/about.html".
Proof.
  split.
  - exact (proj1 (default_static_dir_drops_first_directory sampleEnv "/"
                    ["assets"; "img"] "logo.png" eq_refl ltac:(plain_names)
                    ltac:(plain_names))).
  - exact (proj2 (default_static_dir_drops_first_directory sampleEnv "/"
                    [] "about.html" eq_refl ltac:(plain_names)
                    ltac:(plain_names)) "blog" ltac:(plain_names)).
Defined.

(** ** More on the ignore list and on file collection *)

Section collection.

Lemma foldl_Set_add_fresh (xs acc : list string) :
  NoDup xs →
  foldl Set_add acc xs =
  acc ++ List.filter (λ x, negb (bool_decide (x ∈ acc))) xs.
Proof.
  revert acc. induction xs as [|x xs IH]; intros acc Hxs; simpl.
  - by rewrite app_nil_r.
  - apply NoDup_cons in Hxs as [Hx Hxs]. rewrite IH by done.
    unfold Set_add. case_bool_decide as Hacc; simpl; [done |].
    rewrite <- app_assoc. simpl. do 2 f_equal.
    apply filter_ext_in. intros y Hy%list_elem_of_In. f_equal.
    apply bool_decide_ext. rewrite elem_of_app, list_elem_of_singleton.
    split; [| by left]. intros [? | ->]; done.
Qed.

Lemma Set_from_NoDup_id (xs : list string) : NoDup xs → Set_from xs = xs.
Proof.
  intros Hxs. unfold Set_from. rewrite foldl_Set_add_fresh by done. simpl.
  induction xs as [|x xs IH]; simpl; [done |].
  apply NoDup_cons in Hxs as [_ Hxs]. by rewrite IH.
Qed.

Lemma defaultIgnores_NoDup : NoDup defaultIgnores.
Proof. apply (bool_decide_unpack (NoDup defaultIgnores)). by vm_compute. Qed.

Lemma sublist_filter_impl {A} (p q : A → bool) (l : list A) :
  (∀ x, p x = true → q x = true) → sublist (List.filter p l) (List.filter q l).
Proof.
  intros Hpq. induction l as [|x l IH]; simpl; [constructor |].
  destruct (p x) eqn:Hp.
  - rewrite (Hpq x Hp). by constructor.
  - destruct (q x); [by constructor | done].
Qed.

Lemma sublist_filter_mono {A} (p : A → bool) (l1 l2 : list A) :
  sublist l1 l2 → sublist (List.filter p l1) (List.filter p l2).
Proof.
  induction 1 as [|x l1 l2 _ IH|x l1 l2 _ IH]; simpl; [constructor | |].
  - destruct (p x); [by constructor | done].
  - destruct (p x); [by constructor | done].
Qed.

(** Whether a path is kept depends only on which of its own segments the
    set holds. *)
Lemma filterFiles_ext (env : Env) (files s1 s2 : list string) :
  (∀ f sg, f ∈ files → sg ∈ String_split path.sep f → sg ∈ s1 ↔ sg ∈ s2) →
  filterFiles env files s1 = filterFiles env files s2.
Proof.
  intros Hs. unfold filterFiles. f_equal.
  apply filter_ext_in. intros f Hf%list_elem_of_In. f_equal.
  unfold Array_some, Set_has. apply eq_true_iff_eq.
  rewrite !existsb_exists.
  split; intros (sg & Hsg & Hin); exists sg; split; try done;
    apply bool_decide_eq_true; apply bool_decide_eq_true in Hin;
    apply list_elem_of_In in Hsg; by apply (Hs f sg Hf Hsg).
Qed.

Lemma filterFiles_mono (env : Env) (files s1 s2 : list string) :
  (∀ sg, sg ∈ s1 → sg ∈ s2) →
  sublist (filterFiles env files s2) (filterFiles env files s1).
Proof.
  intros Hs. unfold filterFiles. apply sublist_filter_mono, sublist_filter_impl.
  intros f. rewrite !negb_true_iff. unfold Array_some, Set_has.
  rewrite <- !not_true_iff_false, !existsb_exists.
  intros Hno (sg & Hsg & Hin). apply Hno. exists sg. split; [done |].
  apply bool_decide_eq_true. apply bool_decide_eq_true in Hin. by apply Hs.
Qed.

Lemma filterFiles_all_ignored (env : Env) (files ignsSet : list string) :
  Forall (λ f, ∃ sg, sg ∈ String_split path.sep f ∧ sg ∈ ignsSet) files →
  filterFiles env files ignsSet = [].
Proof.
  intros Hall. destruct (filterFiles env files ignsSet) as [|f rest] eqn:Hres;
    [done |].
  assert (Hf : f ∈ filterFiles env files ignsSet) by (rewrite Hres; left).
  apply filterFiles_elem in Hf as (Hf & _ & Hno).
  rewrite Forall_forall in Hall. destruct (Hall f Hf) as (sg & Hsg & Hin).
  by destruct (Hno sg Hsg).
Qed.

End collection.

(** X3. The ignore list keeps the order of a JavaScript set: with no
    caller list it is the list of defaults itself; with one it is the
    caller's entries, first occurrences only, followed by the defaults the
    caller did not list. Building a set from it a second time, as
    [getFiles] does, changes nothing. *)
Theorem createIgnores_order (ignore : list string) :
  createIgnores None = defaultIgnores ∧
  createIgnores (Some ignore) =
    Set_from ignore ++
    List.filter (λ d, negb (bool_decide (d ∈ ignore))) defaultIgnores ∧
  Set_from (createIgnores (Some ignore)) = createIgnores (Some ignore) ∧
  Set_from (createIgnores None) = createIgnores None.
Proof.
  assert (Hnone : createIgnores None = defaultIgnores)
    by apply Set_from_NoDup_id, defaultIgnores_NoDup.
  split_and!; [done | | apply Set_from_NoDup_id, Set_from_NoDup
              | apply Set_from_NoDup_id, Set_from_NoDup].
  unfold createIgnores, Set_from. rewrite foldl_app.
  rewrite foldl_Set_add_fresh by apply defaultIgnores_NoDup. f_equal.
  apply filter_ext. intros d. f_equal. apply bool_decide_ext, Set_from_elem.
Qed.

(** X4. Ignoring more never collects more: when every entry of one caller
    list is in another, the files collected with the larger list are, in
    the same order, among those collected with the smaller one; so are those
    collected with any list among those collected with none. *)
Theorem larger_ignore_list_collects_less (env : Env)
    (staticDir : option string) (fileExt : option (list string))
    (warning : bool) (ignore1 ignore2 : option (list string)) :
  (∀ x, x ∈ default [] ignore1 → x ∈ default [] ignore2) →
  sublist (getFiles env staticDir fileExt warning ignore2)
          (getFiles env staticDir fileExt warning ignore1).
Proof.
  intros Hsub. unfold getFiles. apply filterFiles_mono. intros sg.
  rewrite !Set_from_elem, !createIgnores_elem. intros [? | ?]; auto.
Qed.

Lemma larger_ignore_list_collects_less_witness :
  sublist (getFiles sampleEnv None None false (Some ["blog"; "assets"]))
          (getFiles sampleEnv None None false (Some ["assets"])) ∧
  getFiles sampleEnv None None false (Some ["blog"; "assets"])
    = ["/srv/index.html"; "/srv/about.html"; "/srv/logo.png"].
Proof.
  split; [| by vm_compute].
  apply larger_ignore_list_collects_less. simpl.
  intros x ->%list_elem_of_singleton. apply list_elem_of_further, list_elem_of_here.
Defined.

(** X5. Paths are ignored by whole segments only, so an ignore entry that
    contains the separator matches no segment and has no effect on what is
    collected. *)
Theorem ignore_entry_with_separator_is_inert (env : Env)
    (staticDir : option string) (fileExt : option (list string))
    (warning : bool) (entry : string) (ignore : list string) :
  String_split path.sep entry ≠ [entry] →
  getFiles env staticDir fileExt warning (Some (entry :: ignore)) =
  getFiles env staticDir fileExt warning (Some ignore).
Proof.
  intros Hentry. unfold getFiles. apply filterFiles_ext.
  intros f sg _ Hsg. rewrite !Set_from_elem, !createIgnores_elem. simpl.
  rewrite elem_of_cons.
  assert (Hpiece : String_split path.sep sg = [sg]).
  { pose proof (String_split_pieces f) as Hall. rewrite Forall_forall in Hall.
    by apply Hall. }
  split; [intros [[-> | ?] | ?]; auto; done | intros [? | ?]; auto].
Qed.

Lemma ignore_entry_with_separator_is_inert_witness :
  getFiles sampleEnv None None false (Some ["blog/index.html"]) =
  getFiles sampleEnv None None false (Some []) ∧
  "/srv/blog/index.html" ∈
    getFiles sampleEnv None None false (Some ["blog/index.html"]).
Proof.
  assert (H : getFiles sampleEnv None None false (Some ["blog/index.html"]) =
              getFiles sampleEnv None None false (Some [])).
  { apply ignore_entry_with_separator_is_inert. by vm_compute. }
  split; [exact H |]. rewrite H. vm_compute.
  apply list_elem_of_further, list_elem_of_here.
Defined.

(** ** More on route generation *)

Section generation.

Context (env : Env).

Lemma memoMime_result (e : string) (r : Run) :
  RunInv env r → (memoMime env e r).1.1 = mimeType env e.
Proof.
  intros Hinv. unfold memoMime.
  destruct (mimeCache r !! e) as [m|] eqn:Hm; simpl; [| done].
  by apply (inv_memo env r Hinv).
Qed.

Lemma routes_foldl_reducer (rootpath static_dir : string)
    (files : list string) (r : Run) :
  RunInv env r →
  routes (foldl (reducer env rootpath static_dir) r files) =
  routes r ++ (routeOf env rootpath static_dir <$> files).
Proof.
  revert r. induction files as [|f files IH]; intros r Hr; simpl.
  - by rewrite app_nil_r.
  - rewrite IH by by apply RunInv_reducer.
    rewrite routes_reducer, memoMime_result by done.
    by rewrite <- app_assoc.
Qed.

Lemma generateRoutes_no_files (options : option GenerateRoutes) :
  getFiles env (options ≫= staticDir) (options ≫= fileExt)
    (default false (options ≫= warning)) (options ≫= ignore) = [] →
  generateRoutes env options = [].
Proof. unfold generateRoutes, generateRoutesRun. by intros ->. Qed.

End generation.

(** X6. Memoizing the resolver changes nothing in the result:
    [generateRoutes] returns, in the order of collection, exactly one route
    per collected file, the route built from that file alone with the
    resolver asked directly. *)
Theorem generateRoutes_maps_collected_files (env : Env)
    (options : option GenerateRoutes) :
  generateRoutes env options =
    routeOf env (rootpathOf options) (default "." (options ≫= staticDir)) <$>
      getFiles env (options ≫= staticDir) (options ≫= fileExt)
        (default false (options ≫= warning)) (options ≫= ignore) ∧
  file <$> generateRoutes env options =
    getFiles env (options ≫= staticDir) (options ≫= fileExt)
      (default false (options ≫= warning)) (options ≫= ignore).
Proof.
  assert (H : generateRoutes env options =
    routeOf env (rootpathOf options) (default "." (options ≫= staticDir)) <$>
      getFiles env (options ≫= staticDir) (options ≫= fileExt)
        (default false (options ≫= warning)) (options ≫= ignore)).
  { unfold generateRoutes, generateRoutesRun.
    by rewrite routes_foldl_reducer by apply RunInv_init. }
  split; [done |]. rewrite H, <- list_fmap_compose.
  apply list_fmap_id.
Qed.

(** X7. A path is dropped when any of its segments is ignored, the segments
    above the static directory included: when the paths of the glob
    expansion all lie below a directory one of whose segments is in the
    ignore list, no route is generated and the handler answers every
    request 404. *)
Theorem ignored_ancestor_serves_nothing (env : Env) (options : GenerateRoutes)
    (ancestor sg : string) :
  sg ∈ String_split path.sep ancestor →
  sg ∈ createIgnores (ignore options) →
  Forall (λ f, ∃ rest, f = ancestor +:+ "/" +:+ rest)
    (globSync env
       (createPattern (path.join [cwd env; default "." (staticDir options)])
          (fileExt options))) →
  generateRoutes env (Some options) = [] ∧
  ∀ disk req resp p,
    burmaStatic env options disk req resp p =
      {| settled := Fulfilled; routeObj := [];
         res := {| response.statusCode := 404;
                   response.sent := Some (Buffer_from html404) |};
         proc := p |}.
Proof.
  intros Hsg Hign Hglob.
  assert (Hroutes : generateRoutes env (Some options) = []).
  { apply generateRoutes_no_files. simpl. unfold getFiles, _getFiles.
    apply filterFiles_all_ignored.
    eapply Forall_impl; [exact Hglob |]. intros f [rest ->]. exists sg.
    rewrite String_split_app_sep, elem_of_app, Set_from_elem. auto. }
  split; [done |]. intros disk req resp p.
  rewrite burmaStatic_handle, Hroutes. by apply handle_not_found.
Qed.

Lemma ignored_ancestor_serves_nothing_witness :
  generateRoutes vendoredEnv (Some noOptions) = [] ∧
  generateRoutes sampleEnv
    (Some {| rootPath := None; staticDir := None; fileExt := None;
             warning := None; ignore := Some [""] |}) = [].
Proof.
  split.
  - apply (ignored_ancestor_serves_nothing vendoredEnv noOptions
             "/home/u/node_modules" "node_modules").
    + vm_compute. do 3 apply list_elem_of_further. apply list_elem_of_here.
    + vm_compute. apply list_elem_of_here.
    + vm_compute. repeat (apply Forall_cons_2 || apply Forall_nil_2);
        eexists; reflexivity.
  - apply (ignored_ancestor_serves_nothing sampleEnv
             {| rootPath := None; staticDir := None; fileExt := None;
                warning := None; ignore := Some [""] |} "" "").
    + vm_compute. apply list_elem_of_here.
    + vm_compute. apply list_elem_of_here.
    + vm_compute. repeat (apply Forall_cons_2 || apply Forall_nil_2);
        eexists; reflexivity.
Defined.

(** ** Absolute and relative root paths *)

Section root_path.

Lemma starts_with_slash_app_l (a b : string) :
  a ≠ "" → starts_with_slash (a +:+ b) = starts_with_slash a.
Proof. by destruct a. Qed.

Lemma normalize_keeps_absolute (p : string) :
  starts_with_slash (path.normalize p) = starts_with_slash p.
Proof.
  unfold path.normalize. destruct (String.eqb_spec p "") as [-> | Hp]; [done |].
  destruct (starts_with_slash p) eqn:Habs.
  - by destruct (String.eqb _ "").
  - simpl negb.
    pose proof (normalizeSegs_segments true (String_split path.sep p) []
                  (String_split_pieces p) (Forall_nil_2 _)) as Hsegs.
    destruct (path.normalizeSegs true [] (String_split path.sep p))
      as [|x rest].
    + simpl. by destruct (ends_with_slash p).
    + apply Forall_cons in Hsegs as [(Hx & Hx0 & _) _].
      rewrite (proj2 (String.eqb_neq _ _) (Array_join_nonempty x rest Hx0)).
      assert (Hbody : starts_with_slash (Array_join "/" (x :: rest)) = false).
      { rewrite Array_join_absolute by done. by apply plain_not_absolute. }
      destruct (ends_with_slash p); [| done].
      rewrite starts_with_slash_app_l; [done | by apply Array_join_nonempty].
Qed.

Lemma join_keeps_absolute (a : string) (rest : list string) :
  a ≠ "" → starts_with_slash (path.join (a :: rest)) = starts_with_slash a.
Proof.
  intros Ha. unfold path.join. simpl.
  rewrite (proj2 (String.eqb_neq _ _) Ha). simpl.
  rewrite normalize_keeps_absolute. by apply Array_join_absolute.
Qed.

Lemma urlFor_keeps_absolute (env : Env) (rootpath static_dir f : string) :
  rootpath ≠ "" →
  starts_with_slash (urlFor env rootpath static_dir f) =
  starts_with_slash rootpath.
Proof.
  intros Hroot. unfold urlFor.
  destruct (fired_is_Some static_dir
    (path.parse (path.relative (cwd env) (cwd env) f))) as [b ->].
  destruct b; simpl; [done | by apply join_keeps_absolute ..].
Qed.

Lemma urls_keep_absolute (env : Env) (options : option GenerateRoutes) :
  Forall (λ r, starts_with_slash (url r) = starts_with_slash (rootpathOf options))
    (generateRoutes env options).
Proof.
  apply Forall_fmap with (f := url)
    (P := λ u, starts_with_slash u = starts_with_slash (rootpathOf options)).
  unfold generateRoutes, generateRoutesRun. rewrite urls_foldl_reducer. simpl.
  apply Forall_fmap, Forall_forall. intros f _. simpl.
  apply urlFor_keeps_absolute, rootpathOf_nonempty.
Qed.

End root_path.

(** X8. Every generated url is absolute exactly when the root path is: with
    the default root path, or any root path that starts with a slash, every
    url starts with a slash; with a root path that does not, no url does,
    so a request whose target starts with a slash matches no route and is
    answered 404. *)
Theorem urls_absolute_as_rootPath (env : Env) (options : GenerateRoutes) :
  Forall (λ r, starts_with_slash (url r)
               = starts_with_slash (rootpathOf (Some options)))
    (generateRoutes env (Some options)) ∧
  (rootPath options = None ∨ rootPath options = Some "" →
     Forall (λ r, starts_with_slash (url r) = true)
       (generateRoutes env (Some options))) ∧
  (starts_with_slash (rootpathOf (Some options)) = false →
     ∀ disk req resp p,
       starts_with_slash (request.url req) = true →
       response.statusCode (res (burmaStatic env options disk req resp p)) = 404).
Proof.
  pose proof (urls_keep_absolute env (Some options)) as Hall.
  split_and!; [done | |].
  - intros Hroot. eapply Forall_impl; [exact Hall |]. intros r ->.
    unfold rootpathOf. simpl. by destruct Hroot as [-> | ->].
  - intros Hrel disk req resp p Hreq.
    rewrite burmaStatic_handle, handle_not_found; [done |].
    apply findRoute_None. intros r Hr Hurl.
    rewrite Forall_forall in Hall. specialize (Hall r Hr). congruence.
Qed.

Lemma urls_absolute_as_rootPath_witness :
  response.statusCode
    (res (burmaStatic sampleEnv
            {| rootPath := Some "static"; staticDir := Some "public";
               fileExt := None; warning := None; ignore := None |}
            sampleDisk (GET "/static/about") response.fresh boot)) = 404 ∧
  url <$> generateRoutes sampleEnv
            (Some {| rootPath := Some "static"; staticDir := Some "public";
                     fileExt := None; warning := None; ignore := None |})
    = ["static"; "static/blog"; "static/about"; "static/logo.png";
       "static/assets/logo.png"] ∧
  Forall (λ r, starts_with_slash (url r) = true)
    (generateRoutes sampleEnv (Some noOptions)).
Proof.
  split_and!.
  - by apply (urls_absolute_as_rootPath sampleEnv
                {| rootPath := Some "static"; staticDir := Some "public";
                   fileExt := None; warning := None; ignore := None |}).
  - by vm_compute.
  - apply (urls_absolute_as_rootPath sampleEnv noOptions). by left.
Defined.

(** ** More on the request handler *)

Section handler.

Lemma findRoute_app (before after : list RouteObject) (u : string) :
  findRoute (before ++ after) u =
  match findRoute before u with
  | Some r => Some r
  | None => findRoute after u
  end.
Proof.
  unfold findRoute. induction before as [|x before IH]; simpl; [done |].
  by destruct (String.eqb (url x) u).
Qed.

Lemma findRoute_without (after : list RouteObject) (shadow u : string) :
  shadow ≠ u →
  findRoute (List.filter (λ x, negb (String.eqb (url x) shadow)) after) u =
  findRoute after u.
Proof.
  intros Hne. unfold findRoute. induction after as [|x after IH]; simpl; [done |].
  destruct (String.eqb_spec (url x) shadow) as [Hx | Hx]; simpl.
  - rewrite IH. destruct (String.eqb_spec (url x) u); [congruence | done].
  - by rewrite IH.
Qed.

Lemma findRoute_shadow (before after : list RouteObject) (r : RouteObject)
    (u : string) :
  findRoute
    (before ++ r :: List.filter (λ x, negb (String.eqb (url x) (url r))) after) u
  = findRoute (before ++ r :: after) u.
Proof.
  rewrite !findRoute_app. destruct (findRoute before u); [done |].
  change (findRoute (r :: ?l) u)
    with (if String.eqb (url r) u then Some r else findRoute l u).
  destruct (String.eqb_spec (url r) u) as [Hr | Hr]; [done |].
  by apply findRoute_without.
Qed.

Lemma handle_by_findRoute (rt1 rt2 : list RouteObject) (disk : Disk)
    (req : request.t) (resp : response.t) (p : Process) :
  findRoute rt1 (request.url req) = findRoute rt2 (request.url req) →
  settled (handle rt1 disk req resp p) = settled (handle rt2 disk req resp p) ∧
  res (handle rt1 disk req resp p) = res (handle rt2 disk req resp p) ∧
  proc (handle rt1 disk req resp p) = proc (handle rt2 disk req resp p).
Proof.
  unfold handle. intros ->.
  destruct (findRoute rt2 (request.url req)) as [found|]; [| done].
  destruct (store p !! url found); [done |].
  by destruct (disk (file found)).
Qed.

End handler.

(** X9. When several routes have the same url only the first in table order
    is ever used: deleting from the table every later route with the url of
    an earlier one changes neither the response, nor the store, nor the
    console, nor how the promise settles, for any request in any state. *)
Theorem later_route_with_same_url_is_dead (before after : list RouteObject)
    (r : RouteObject) (disk : Disk) (req : request.t) (resp : response.t)
    (p : Process) :
  let kept := List.filter (λ x, negb (String.eqb (url x) (url r))) after in
  settled (handle (before ++ r :: kept) disk req resp p)
    = settled (handle (before ++ r :: after) disk req resp p) ∧
  res (handle (before ++ r :: kept) disk req resp p)
    = res (handle (before ++ r :: after) disk req resp p) ∧
  proc (handle (before ++ r :: kept) disk req resp p)
    = proc (handle (before ++ r :: after) disk req resp p).
Proof. intros kept. apply handle_by_findRoute, findRoute_shadow. Qed.

(** X10. The handler never looks at the method: two requests for the same
    url, whatever their methods, get the same response, leave the same
    store and settle the promise the same way; only the method printed in
    the log line differs. *)
Theorem method_is_ignored (rt : list RouteObject) (disk : Disk)
    (method1 method2 target : string) (resp : response.t) (p : Process) :
  let h1 := handle rt disk
              {| request.method := method1; request.url := target |} resp p in
  let h2 := handle rt disk
              {| request.method := method2; request.url := target |} resp p in
  settled h1 = settled h2 ∧ res h1 = res h2 ∧
  store (proc h1) = store (proc h2) ∧
  length (stdout (proc h1)) = length (stdout (proc h2)).
Proof.
  intros h1 h2. subst h1 h2. unfold handle. simpl.
  destruct (findRoute rt target) as [found|]; [| done].
  destruct (store p !! url found); simpl; [by rewrite !length_app |].
  destruct (disk (file found)); simpl; [by rewrite !length_app | done].
Qed.



Section growth.

Lemma react_grows (l : Loop) (e : Event) :
  dom (store (world l)) ⊆ dom (store (world (react l e))) ∧
  (∃ lines, stdout (world (react l e)) = stdout (world l) ++ lines ∧
            length lines ≤ 1) ∧
  (∀ u, u ∈ dom (store (world (react l e))) →
        u ∈ dom (store (world l)) ∨
        ∃ w, w ∈ waiting l ∧ url (w_found w) = u) ∧
  (∀ w, w ∈ waiting (react l e) →
        w ∈ waiting l ∨
        ∃ rt req, e = Call rt req ∧ w_found w ∈ rt).
Proof.
  destruct e as [rt req | i read stream]; simpl.
  - unfold start.
    destruct (findRoute rt (request.url req)) as [found|] eqn:Hfound; simpl.
    + destruct (store (world l) !! url found) as [cached|]; simpl.
      * split_and!; [done | eexists [_]; by split | auto | auto].
      * split_and!; [done | exists []; split; [by rewrite app_nil_r | simpl; lia]
                    | auto |].
        intros w [Hw | ->%list_elem_of_singleton]%elem_of_app; [by left |].
        right. exists rt, req. split; [done |]. simpl.
        apply findRoute_Some in Hfound as (before & after & -> & _).
        apply elem_of_app. right. left.
    + split_and!; [done | exists []; split; [by rewrite app_nil_r | simpl; lia]
                  | auto | auto].
  - destruct (waiting l !! i) as [w|] eqn:Hw.
    + unfold resume. destruct (read (file (w_found w))) as [c|]; simpl.
      * split_and!.
        -- rewrite dom_insert_L. set_solver.
        -- eexists [_]. by split.
        -- intros u. rewrite dom_insert_L, elem_of_union, elem_of_singleton.
           intros [-> | Hu]; [| by left]. right. exists w.
           split; [by eapply list_elem_of_lookup_2 | done].
        -- intros w' Hw'. left. by eapply list_elem_of_delete_inv.
      * split_and!; [done | exists []; split; [by rewrite app_nil_r | simpl; lia]
                    | auto |].
        intros w' Hw'. left. by eapply list_elem_of_delete_inv.
    + split_and!; [done | exists []; split; [by rewrite app_nil_r | simpl; lia]
                  | auto | auto].
Qed.

End growth.

(** X12. However calls and reads overlap, the store never loses a key and
    the console never loses a line: after any sequence of events every key
    of the store is still a key, the lines already printed are a prefix of
    the console with at most one line added per event, and every new key is
    the url of the route of a call that was waiting or of a route of a
    table that was called. *)
Theorem store_keys_and_console_only_grow (es : list Event) (l : Loop) :
  dom (store (world l)) ⊆ dom (store (world (runLoop es l))) ∧
  (∃ lines, stdout (world (runLoop es l)) = stdout (world l) ++ lines ∧
            length lines ≤ length es) ∧
  (∀ u, u ∈ dom (store (world (runLoop es l))) →
        u ∈ dom (store (world l)) ∨
        (∃ w, w ∈ waiting l ∧ url (w_found w) = u) ∨
        (∃ rt req r, Call rt req ∈ es ∧ r ∈ rt ∧ url r = u)).
Proof.
  revert l. induction es as [|e es IH]; intros l.
  - split_and!; [done | exists []; split; [by rewrite app_nil_r | done] | auto].
  - change (runLoop (e :: es) l) with (runLoop es (react l e)).
    destruct (react_grows l e) as (Hdom & (lines1 & Hlines1 & Hlen1) & Hkeys & Hwait).
    destruct (IH (react l e)) as (Hdom' & (lines2 & Hlines2 & Hlen2) & Hkeys').
    split_and!.
    + by etransitivity.
    + exists (lines1 ++ lines2). rewrite Hlines2, Hlines1, <- app_assoc.
      split; [done |]. rewrite length_app. simpl. lia.
    + intros u [Hu | [(w & Hw & Hurl) | (rt & req & r & Hcall & Hr & Hurl)]]%Hkeys'.
      * destruct (Hkeys u Hu) as [? | ?]; auto.
      * destruct (Hwait w Hw) as [? | (rt & req & -> & Hin)].
        -- right. left. by exists w.
        -- right. right. exists rt, req, (w_found w).
           split_and!; [left | done | done].
      * right. right. exists rt, req, r. split_and!; [by right | done | done].
Qed.

(** X13. A request touches the store at its own url only, so requests for
    different urls do not disturb each other: serving one url first changes
    neither the response to a request for another url nor how its promise
    settles. *)
Theorem other_urls_do_not_interfere (rt : list RouteObject)
    (disk1 disk2 : Disk) (req1 req2 : request.t) (resp1 resp2 : response.t)
    (p : Process) :
  request.url req1 ≠ request.url req2 →
  let after1 := proc (handle rt disk1 req1 resp1 p) in
  (∀ u, u ≠ request.url req1 → store after1 !! u = store p !! u) ∧
  res (handle rt disk2 req2 resp2 after1) = res (handle rt disk2 req2 resp2 p) ∧
  settled (handle rt disk2 req2 resp2 after1)
    = settled (handle rt disk2 req2 resp2 p).
Proof.
  intros Hne after1.
  assert (Hframe : ∀ u, u ≠ request.url req1 → store after1 !! u = store p !! u).
  { intros u Hu. subst after1. unfold handle.
    destruct (findRoute rt (request.url req1)) as [found|] eqn:Hfound; [| done].
    apply findRoute_url in Hfound.
    destruct (store p !! url found); [done |].
    destruct (disk1 (file found)); [| done].
    simpl. rewrite lookup_insert_ne; [done | congruence]. }
  split; [done |]. clearbody after1. unfold handle.
  destruct (findRoute rt (request.url req2)) as [found|] eqn:Hfound; [| done].
  apply findRoute_url in Hfound.
  rewrite Hframe by congruence.
  destruct (store p !! url found); [done |].
  by destruct (disk2 (file found)).
Qed.

Lemma other_urls_do_not_interfere_witness :
  res (handle (generateRoutes sampleEnv (Some (inDir "site_b")))
         (λ f, Some (Buffer_from f)) (GET "/") response.fresh
         (proc (handle (generateRoutes sampleEnv (Some (inDir "site_b")))
                  (λ f, Some (Buffer_from f)) (GET "/data.bin")
                  response.fresh boot)))
  = res (handle (generateRoutes sampleEnv (Some (inDir "site_b")))
           (λ f, Some (Buffer_from f)) (GET "/") response.fresh boot) ∧
  store (proc (handle (generateRoutes sampleEnv (Some (inDir "site_b")))
                 (λ f, Some (Buffer_from f)) (GET "/data.bin")
                 response.fresh boot)) !! "/data.bin"
  = Some (Buffer_from "/srv/site_b/data.bin").
Proof.
  split; [| by vm_compute].
  apply (other_urls_do_not_interfere
           (generateRoutes sampleEnv (Some (inDir "site_b")))
           (λ f, Some (Buffer_from f)) (λ f, Some (Buffer_from f))
           (GET "/data.bin") (GET "/") response.fresh response.fresh boot).
  done.
Defined.



(** ** The directory that is scanned *)

Section scanned.

Lemma ends_with_slash_app (a x : string) :
  x ≠ "" → ends_with_slash (a +:+ x) = ends_with_slash x.
Proof.
  intros Hx. induction a as [|c a IH]; [done |].
  change (String c a +:+ x) with (String c (a +:+ x)). simpl.
  destruct (a +:+ x) eqn:Hax; [| done].
  by apply String_app_nil_inv in Hax as [_ ?].
Qed.

Lemma no_separator_inv (c : ascii) (x : string) :
  String_split path.sep (String c x) = [String c x] →
  Ascii.eqb c "/" = false ∧ String_split path.sep x = [x].
Proof.
  unfold path.sep. simpl.
  destruct (Ascii.eqb c "/"); [intros [=] |].
  pose proof (String_split_nonempty x) as Hne. unfold path.sep in Hne.
  destruct (String_split "/" x) as [|seg segs]; [done |].
  by intros [= -> ->].
Qed.

Lemma no_separator_no_trailing (x : string) :
  String_split path.sep x = [x] → ends_with_slash x = false.
Proof.
  induction x as [|c x IH]; [done |].
  intros [Hc Hx]%no_separator_inv. simpl. rewrite Hc.
  destruct x; [done | by apply IH].
Qed.

Lemma String_app_assoc (a b c : string) : (a +:+ b) +:+ c = a +:+ b +:+ c.
Proof.
  induction a as [|x a IH]; [done |].
  change (String x (a +:+ b) +:+ c = String x (a +:+ b +:+ c)).
  change (String x ((a +:+ b) +:+ c) = String x (a +:+ b +:+ c)). by rewrite IH.
Qed.

Lemma Array_join_snoc (segs : list string) (d : string) :
  segs ≠ [] →
  Array_join "/" (segs ++ [d]) = Array_join "/" segs +:+ "/" +:+ d.
Proof.
  induction segs as [|x [|y rest] IH]; intros Hne; [done | done |].
  change (Array_join "/" ((x :: y :: rest) ++ [d]))
    with (x +:+ "/" +:+ Array_join "/" ((y :: rest) ++ [d])).
  rewrite IH by done.
  change (Array_join "/" (x :: y :: rest))
    with (x +:+ "/" +:+ Array_join "/" (y :: rest)).
  by rewrite !String_app_assoc.
Qed.

(** Joining an absolute, normalised working directory with one more
    segment: a plain name is appended, the single dot changes nothing. *)
Lemma join_cwd (segs : list string) (d : string) :
  segs ≠ [] → Forall plain segs →
  String_split path.sep d = [d] → d ≠ "" → d ≠ ".." →
  path.join ["/" +:+ Array_join "/" segs; d] =
    if String.eqb d "." then "/" +:+ Array_join "/" segs
    else "/" +:+ Array_join "/" segs +:+ "/" +:+ d.
Proof.
  intros Hne Hsegs Hd Hd0 Hd2.
  set (root := "/" +:+ Array_join "/" segs).
  assert (Hjoin : path.join [root; d] = path.normalize (root +:+ "/" +:+ d)).
  { unfold path.join. simpl. destruct d; [done |]. done. }
  rewrite Hjoin. unfold path.normalize.
  assert (Habs : starts_with_slash (root +:+ "/" +:+ d) = true) by done.
  assert (Htrail : ends_with_slash (root +:+ "/" +:+ d) = false).
  { rewrite ends_with_slash_app by done.
    change ("/" +:+ d) with (String "/" d). simpl.
    destruct d; [done |]. by apply no_separator_no_trailing. }
  assert (Hsplit : String_split path.sep (root +:+ "/" +:+ d) = "" :: segs ++ [d]).
  { rewrite String_split_app_sep, Hd. subst root.
    change ("/" +:+ Array_join "/" segs) with ("" +:+ "/" +:+ Array_join "/" segs).
    by rewrite String_split_app_sep, String_split_join_plain. }
  rewrite Habs, Htrail, Hsplit. simpl negb.
  replace (String.eqb (root +:+ "/" +:+ d) "") with false by done.
  change (path.normalizeSegs false [] ("" :: segs ++ [d]))
    with (path.normalizeSegs false [] (segs ++ [d])).
  rewrite normalizeSegs_app, (normalizeSegs_plain false segs) by done.
  change (rev [] ++ segs) with segs.
  destruct (String.eqb_spec d ".") as [-> | Hd1].
  - simpl. rewrite rev_involutive.
    assert (Hbody : Array_join "/" segs ≠ "").
    { destruct segs as [|x rest]; [done |].
      apply Forall_cons in Hsegs as [(_ & ? & _) _]. by apply Array_join_nonempty. }
    by rewrite (proj2 (String.eqb_neq _ _) Hbody).
  - rewrite normalizeSegs_plain by (by apply Forall_singleton).
    rewrite rev_involutive, Array_join_snoc by done.
    assert (Hbody : Array_join "/" segs +:+ "/" +:+ d ≠ "").
    { intros [_ [? _]%String_app_nil_inv]%String_app_nil_inv. done. }
    rewrite (proj2 (String.eqb_neq _ _) Hbody). done.
Qed.

End scanned.

(** X15. The glob pattern is rooted in the working directory: with no static
    directory, or with the single dot, the directory scanned is the working
    directory itself, and with a plain name it is that directory of the
    working directory; the caller's ignores and the file test are then
    applied to the expansion of that pattern. *)
Theorem getFiles_scans_below_cwd (env : Env) (segs : list string)
    (fileExt : option (list string)) (warning : bool)
    (ignore : option (list string)) :
  segs ≠ [] → Forall plain segs →
  cwd env = "/" +:+ Array_join "/" segs →
  getFiles env None fileExt warning ignore =
    filterFiles env (globSync env (createPattern (cwd env) fileExt))
      (createIgnores ignore) ∧
  getFiles env (Some ".") fileExt warning ignore =
    getFiles env None fileExt warning ignore ∧
  (∀ d, plain d →
     getFiles env (Some d) fileExt warning ignore =
       filterFiles env
         (globSync env (createPattern (cwd env +:+ "/" +:+ d) fileExt))
         (createIgnores ignore)).
Proof.
  intros Hne Hsegs Hcwd. unfold getFiles, _getFiles. simpl default.
  rewrite Hcwd.
  assert (Hset : Set_from (createIgnores ignore) = createIgnores ignore)
    by apply Set_from_NoDup_id, Set_from_NoDup.
  rewrite Hset. split_and!; [| done |].
  - by rewrite join_cwd.
  - intros d (Hd & Hd0 & Hd1 & Hd2). rewrite join_cwd by done.
    by rewrite (proj2 (String.eqb_neq _ _) Hd1).
Qed.

Lemma getFiles_scans_below_cwd_witness :
  getFiles sampleEnv (Some "site_b") None false None =
    filterFiles sampleEnv (sampleGlob "/srv/site_b/**/*") defaultIgnores ∧
  getFiles sampleEnv None (Some ["html"]) false None =
    filterFiles sampleEnv (sampleGlob "/srv/**/*.html") defaultIgnores.
Proof.
  destruct (getFiles_scans_below_cwd sampleEnv ["srv"] None false None)
    as (_ & _ & Hd); [done | plain_names | done |].
  destruct (getFiles_scans_below_cwd sampleEnv ["srv"] (Some ["html"]) false None)
    as (Hnone & _ & _); [done | plain_names | done |].
  split.
  - rewrite (Hd "site_b") by (by repeat split; vm_compute). done.
  - rewrite Hnone. done.
Defined.
